(** * KeenBench python worker: the tabular (CSV) cache and query subsystem

    A shallow embedding of the tabular section of
    [engine/tools/pyworker/worker.py] and the properties its design document
    states about it.

    Conventions of the embedding.
    - Python [str] values are [list ascii]: a text of 8-bit characters, read
      as the code points U+0000..U+00FF.  Wherever Python's behaviour depends
      on the character (white space, alphanumerics, case mapping) the
      Latin-1 rows of the Unicode tables that CPython uses are written out.
      Code points above U+00FF are outside the embedding.
    - A Python call that may raise returns a [result]: [Ok v] or [Raise e].
    - Dictionaries are [gmap]s, the integers are [Z]. *)

From Stdlib Require Import ZArith QArith Lia Bool Ascii String DecimalString.
From stdpp Require Import base option list gmap strings.

Set Warnings "-register-all".

Local Open Scope Z_scope.
Local Open Scope list_scope.

Abbreviation text := (list ascii).

(** ** Errors *)

Inductive error_code :=
  | VALIDATION_FAILED | FILE_READ_FAILED | FILE_WRITE_FAILED | SANDBOX_VIOLATION.

(** [WorkerError code message] is the worker's own exception; [OtherError]
    stands for any other Python exception (raised by the engine, the
    operating system or a library), identified by its text. *)
Inductive exn :=
  | WorkerError (code : error_code) (message : string)
  | OtherError (what : string).

Inductive result (A : Type) :=
  | Ok (value : A)
  | Raise (e : exn).
Arguments Ok {A} value.
Arguments Raise {A} e.

Definition bind {A B} (r : result A) (k : A -> result B) : result B :=
  match r with
  | Ok v => k v
  | Raise e => Raise e
  end.

Notation "'letr' x := r 'in' k" := (bind r (fun x => k))
  (at level 10, x name, r at level 100, k at level 200).

Definition is_ok {A} (r : result A) : bool :=
  match r with Ok _ => true | Raise _ => false end.

(** ** Python text primitives *)

Module PyText.

Definition txt (s : string) : text := list_ascii_of_string s.
Definition str (t : text) : string := string_of_list_ascii t.

Definition code (c : ascii) : N := N_of_ascii c.

Definition in_range (lo hi : N) (c : ascii) : bool :=
  ((lo <=? code c) && (code c <=? hi))%N.

Definition chr_eqb (a b : ascii) : bool := Ascii.eqb a b.

(** [str.isspace] on one character (also [\s] of the [re] module for a
    [str] pattern): TAB..CR, FS..US, SPACE, NEL and NBSP. *)
Definition is_space (c : ascii) : bool :=
  in_range 9 13 c || in_range 28 32 c || (code c =? 133)%N || (code c =? 160)%N.

(** [str.isalnum] on one character, Latin-1 rows. *)
Definition is_alnum (c : ascii) : bool :=
  in_range 48 57 c || in_range 65 90 c || in_range 97 122 c
  || (code c =? 170)%N || (code c =? 178)%N || (code c =? 179)%N
  || (code c =? 181)%N || (code c =? 185)%N || (code c =? 186)%N
  || in_range 188 190 c || in_range 192 214 c || in_range 216 246 c
  || in_range 248 255 c.

(** A word character of the [re] module: alphanumeric or underscore. *)
Definition is_word (c : ascii) : bool := is_alnum c || chr_eqb c "_".

Definition lower_char (c : ascii) : ascii :=
  if in_range 65 90 c || (in_range 192 222 c && negb (code c =? 215)%N)
  then ascii_of_N (code c + 32) else c.

Definition lower (t : text) : text := map lower_char t.

(** [str.upper]: the result can be longer than the argument (U+00DF gives
    "SS").  The two Latin-1 letters whose capital lies above U+00FF (U+00B5
    and U+00FF) are kept as they are; their capitals are not ASCII either, so
    no comparison with an ASCII word can tell the difference. *)
Definition upper_char (c : ascii) : text :=
  if in_range 97 122 c || (in_range 224 254 c && negb (code c =? 247)%N)
  then [ascii_of_N (code c - 32)]
  else if (code c =? 223)%N then ["S"; "S"]%char
  else [c].

Definition upper (t : text) : text := flat_map upper_char t.

Fixpoint lstrip (t : text) : text :=
  match t with
  | c :: tl => if is_space c then lstrip tl else t
  | [] => []
  end.

Definition rstrip (t : text) : text := rev (lstrip (rev t)).

Definition strip (t : text) : text := rstrip (lstrip t).

(** [t.count(c)] for a one-character needle. *)
Definition count (c : ascii) (t : text) : Z :=
  Z.of_nat (length (List.filter (chr_eqb c) t)).

(** [t.endswith(c)] for a one-character suffix. *)
Definition endswith (c : ascii) (t : text) : bool :=
  match last t with
  | Some d => chr_eqb d c
  | None => false
  end.

(** [t[:-1]] *)
Definition drop_last (t : text) : text := removelast t.

Fixpoint take_word (t : text) : text :=
  match t with
  | c :: tl => if is_space c then [] else c :: take_word tl
  | [] => []
  end.

(** [t.split(None, 1)[0]]; [None] is Python's IndexError on an empty or
    all-white-space text. *)
Definition first_word (t : text) : option text :=
  match lstrip t with
  | [] => None
  | w => Some (take_word w)
  end.

Fixpoint text_eqb (a b : text) : bool :=
  match a, b with
  | [], [] => true
  | x :: a', y :: b' => chr_eqb x y && text_eqb a' b'
  | _, _ => false
  end.

Fixpoint starts_with (p t : text) : bool :=
  match p, t with
  | [], _ => true
  | x :: p', y :: t' => chr_eqb x y && starts_with p' t'
  | _ :: _, [] => false
  end.

(** [p in t] on texts: [p] occurs as a contiguous run of [t]. *)
Fixpoint contains (p t : text) : bool :=
  starts_with p t ||
  match t with
  | [] => false
  | _ :: tl => contains p tl
  end.

(** [x in words] for a tuple or set of texts. *)
Definition member (x : text) (words : list string) : bool :=
  existsb (fun w => text_eqb x (txt w)) words.

Definition is_digit (c : ascii) : bool := in_range 48 57 c.

(** The digits of [int(text)]: decimal digits, single underscores allowed
    between two digits. *)
Fixpoint digits_value (acc : Z) (after_digit : bool) (t : text) : option Z :=
  match t with
  | [] => if after_digit then Some acc else None
  | c :: tl =>
    if is_digit c then digits_value (10 * acc + Z.of_N (code c - 48)) true tl
    else if chr_eqb c "_" && after_digit then digits_value acc false tl
    else None
  end.

(** [int(text)]: surrounding white space, an optional sign, the digits;
    [None] is Python's ValueError.  The limit that recent versions of
    CPython put on the number of digits (4300 unless configured) is not
    modelled. *)
Definition int_of_text (t : text) : option Z :=
  match strip t with
  | "-"%char :: ds => Z.opp <$> digits_value 0 false ds
  | "+"%char :: ds => digits_value 0 false ds
  | ds => digits_value 0 false ds
  end.

(** [str(n)] for an integer. *)
Definition str_of_int (n : Z) : string := NilZero.string_of_int (Z.to_int n).

End PyText.

Import PyText.

(** ** The query validator *)

Module Validator.

Inductive scan_state :=
  | normal | single_quote | double_quote | line_comment | block_comment.

Definition LF : ascii := "010"%char.
Definition SQ : ascii := "'"%char.
Definition DQ : ascii := "034"%char.

(** The loop of [_tabular_strip_sql_literals_and_comments]: [ch] is
    [sql[i]], [tl] the text from [i + 1] on, so [nxt] is the head of [tl]
    when there is one.  A step that does [i += 2] continues after [nxt]. *)
Fixpoint strip_loop (state : scan_state) (sql : text) : text :=
  match sql with
  | [] => []
  | ch :: tl =>
    match state with
    | normal =>
      if chr_eqb ch SQ then " "%char :: strip_loop single_quote tl
      else if chr_eqb ch DQ then " "%char :: strip_loop double_quote tl
      else
        match tl with
        | nxt :: tl2 =>
          if chr_eqb ch "-" && chr_eqb nxt "-" then strip_loop line_comment tl2
          else if chr_eqb ch "/" && chr_eqb nxt "*" then strip_loop block_comment tl2
          else ch :: strip_loop normal tl
        | [] => ch :: strip_loop normal tl
        end
    | single_quote =>
      match tl with
      | nxt :: tl2 =>
        if chr_eqb ch SQ && chr_eqb nxt SQ then strip_loop single_quote tl2
        else if chr_eqb ch SQ then strip_loop normal tl
        else strip_loop single_quote tl
      | [] => if chr_eqb ch SQ then strip_loop normal tl else strip_loop single_quote tl
      end
    | double_quote =>
      match tl with
      | nxt :: tl2 =>
        if chr_eqb ch DQ && chr_eqb nxt DQ then strip_loop double_quote tl2
        else if chr_eqb ch DQ then strip_loop normal tl
        else strip_loop double_quote tl
      | [] => if chr_eqb ch DQ then strip_loop normal tl else strip_loop double_quote tl
      end
    | line_comment =>
      if chr_eqb ch LF then LF :: strip_loop normal tl
      else strip_loop line_comment tl
    | block_comment =>
      match tl with
      | nxt :: tl2 =>
        if chr_eqb ch "*" && chr_eqb nxt "/" then strip_loop normal tl2
        else if chr_eqb ch LF then LF :: strip_loop block_comment tl
        else strip_loop block_comment tl
      | [] => if chr_eqb ch LF then LF :: strip_loop block_comment tl
              else strip_loop block_comment tl
      end
    end
  end.

Definition _tabular_strip_sql_literals_and_comments (sql : text) : text :=
  strip_loop normal sql.

(** The same loop with the index [i] kept: every character appended to
    [out] is paired with the index of the input character at which it was
    appended. *)
Fixpoint strip_loop_at (i : nat) (state : scan_state) (sql : text) : list (nat * ascii) :=
  match sql with
  | [] => []
  | ch :: tl =>
    match state with
    | normal =>
      if chr_eqb ch SQ then (i, " "%char) :: strip_loop_at (S i) single_quote tl
      else if chr_eqb ch DQ then (i, " "%char) :: strip_loop_at (S i) double_quote tl
      else
        match tl with
        | nxt :: tl2 =>
          if chr_eqb ch "-" && chr_eqb nxt "-" then strip_loop_at (S (S i)) line_comment tl2
          else if chr_eqb ch "/" && chr_eqb nxt "*" then strip_loop_at (S (S i)) block_comment tl2
          else (i, ch) :: strip_loop_at (S i) normal tl
        | [] => (i, ch) :: strip_loop_at (S i) normal tl
        end
    | single_quote =>
      match tl with
      | nxt :: tl2 =>
        if chr_eqb ch SQ && chr_eqb nxt SQ then strip_loop_at (S (S i)) single_quote tl2
        else if chr_eqb ch SQ then strip_loop_at (S i) normal tl
        else strip_loop_at (S i) single_quote tl
      | [] => if chr_eqb ch SQ then strip_loop_at (S i) normal tl
              else strip_loop_at (S i) single_quote tl
      end
    | double_quote =>
      match tl with
      | nxt :: tl2 =>
        if chr_eqb ch DQ && chr_eqb nxt DQ then strip_loop_at (S (S i)) double_quote tl2
        else if chr_eqb ch DQ then strip_loop_at (S i) normal tl
        else strip_loop_at (S i) double_quote tl
      | [] => if chr_eqb ch DQ then strip_loop_at (S i) normal tl
              else strip_loop_at (S i) double_quote tl
      end
    | line_comment =>
      if chr_eqb ch LF then (i, LF) :: strip_loop_at (S i) normal tl
      else strip_loop_at (S i) line_comment tl
    | block_comment =>
      match tl with
      | nxt :: tl2 =>
        if chr_eqb ch "*" && chr_eqb nxt "/" then strip_loop_at (S (S i)) normal tl2
        else if chr_eqb ch LF then (i, LF) :: strip_loop_at (S i) block_comment tl
        else strip_loop_at (S i) block_comment tl
      | [] => if chr_eqb ch LF then (i, LF) :: strip_loop_at (S i) block_comment tl
              else strip_loop_at (S i) block_comment tl
      end
    end
  end.

Definition _DANGEROUS_KEYWORDS : list string :=
  [ "insert"; "update"; "delete"; "drop"; "alter"; "create"; "replace";
    "truncate"; "copy"; "attach"; "detach"; "pragma"; "set"; "call";
    "vacuum"; "analyze"; "grant"; "revoke"; "comment"; "install";
    "load"; "export"; "import"; "merge" ]%string.

Definition _IDENT_CONTEXT_TOKENS : list string :=
  [ "select"; "from"; "join"; "on"; "as"; "by"; "where"; "having";
    "and"; "or"; "not"; "in"; "between"; "like"; "ilike"; "is";
    "when"; "then"; "else"; "distinct"; "all"; "over"; "partition";
    "using"; "limit"; "offset"; "case"; "end"; "with"; "recursive";
    "filter"; "within"; "respect"; "ignore"; "nulls"; "asc"; "desc";
    "group"; "order"; "into";
    ","; "."; "("; ")"; "="; "<"; ">"; "!"; "+"; "-"; "*"; "/";
    "|"; "&"; "^"; "~"; "%" ]%string.

(** The character class of [_TOKEN_SPLIT_RE]: [,;.()\[\]=<>!+\-*/|&^~%]. *)
Definition is_split_punct (c : ascii) : bool :=
  existsb (chr_eqb c)
    [","; ";"; "."; "("; ")"; "["; "]"; "="; "<"; ">"; "!"; "+"; "-"; "*";
     "/"; "|"; "&"; "^"; "~"; "%"]%char.

(** [_TOKEN_SPLIT_RE.split]: the pattern is one capturing group, so the
    result alternates the text between two matches (possibly empty) and the
    matched separator, a maximal run of white space or one punctuation
    character.  [piece] and [run] are kept reversed. *)
Inductive split_mode :=
  | in_piece (piece : text)
  | in_space (run : text).

Fixpoint split_loop (m : split_mode) (s : text) : list text :=
  match s with
  | [] =>
    match m with
    | in_piece p => [rev p]
    | in_space w => [rev w; []]
    end
  | c :: tl =>
    if is_space c then
      match m with
      | in_piece p => rev p :: split_loop (in_space [c]) tl
      | in_space w => split_loop (in_space (c :: w)) tl
      end
    else if is_split_punct c then
      match m with
      | in_piece p => rev p :: [c] :: split_loop (in_piece []) tl
      | in_space w => rev w :: [] :: [c] :: split_loop (in_piece []) tl
      end
    else
      match m with
      | in_piece p => split_loop (in_piece (c :: p)) tl
      | in_space w => rev w :: split_loop (in_piece [c]) tl
      end
  end.

Definition token_split (s : text) : list text := split_loop (in_piece []) s.

(** [[p for p in parts if p.strip()]] *)
Definition nonblank (p : text) : bool :=
  match strip p with [] => false | _ => true end.

Definition tokenize (lowered_sql : text) : list text :=
  List.filter nonblank (token_split lowered_sql).

Definition is_dangerous (token : text) : bool := member token _DANGEROUS_KEYWORDS.
Definition is_ident_context (token : text) : bool := member token _IDENT_CONTEXT_TOKENS.

Fixpoint scan_tokens (prev : option text) (tokens : list text) : option text :=
  match tokens with
  | [] => None
  | token :: rest =>
    if is_dangerous token then
      match prev with
      | Some p => if is_ident_context p then scan_tokens (Some token) rest
                  else Some token
      | None => Some token
      end
    else scan_tokens (Some token) rest
  end.

Definition _tabular_find_dangerous_keyword (lowered_sql : text) : option text :=
  scan_tokens None (tokenize lowered_sql).

(** *** The pattern of path-reading table functions

    [re.search] finds a match when some position of the text starts a word
    of the pattern's language; the pattern is kept as a syntax tree and
    matched with derivatives. *)
Inductive regex :=
  | r_void
  | r_eps
  | r_class (p : ascii -> bool)
  | r_cat (a b : regex)
  | r_alt (a b : regex)
  | r_star (a : regex).

Fixpoint nullable (r : regex) : bool :=
  match r with
  | r_void => false
  | r_eps => true
  | r_class _ => false
  | r_cat a b => nullable a && nullable b
  | r_alt a b => nullable a || nullable b
  | r_star _ => true
  end.

Fixpoint deriv (c : ascii) (r : regex) : regex :=
  match r with
  | r_void => r_void
  | r_eps => r_void
  | r_class p => if p c then r_eps else r_void
  | r_cat a b =>
    if nullable a then r_alt (r_cat (deriv c a) b) (deriv c b)
    else r_cat (deriv c a) b
  | r_alt a b => r_alt (deriv c a) (deriv c b)
  | r_star a => r_cat (deriv c a) (r_star a)
  end.

(** Some prefix of [s] is a word of [r]. *)
Fixpoint matches_prefix (r : regex) (s : text) : bool :=
  nullable r ||
  match s with
  | [] => false
  | c :: tl => matches_prefix (deriv c r) tl
  end.

Fixpoint r_lit (w : text) : regex :=
  match w with
  | [] => r_eps
  | c :: tl => r_cat (r_class (chr_eqb c)) (r_lit tl)
  end.

Definition r_plus (a : regex) : regex := r_cat a (r_star a).

(** [[a-z0-9_]] *)
Definition is_name_char (c : ascii) : bool :=
  in_range 97 122 c || in_range 48 57 c || chr_eqb c "_".

(** [(read_[a-z0-9_]+|[a-z0-9_]+_scan|glob|open_url|httpfs|read_csv|read_parquet|read_json)\s*\(] *)
Definition path_function_call : regex :=
  r_cat
    (r_alt (r_cat (r_lit (txt "read_")) (r_plus (r_class is_name_char)))
    (r_alt (r_cat (r_plus (r_class is_name_char)) (r_lit (txt "_scan")))
    (r_alt (r_lit (txt "glob"))
    (r_alt (r_lit (txt "open_url"))
    (r_alt (r_lit (txt "httpfs"))
    (r_alt (r_lit (txt "read_csv"))
    (r_alt (r_lit (txt "read_parquet"))
           (r_lit (txt "read_json")))))))))
    (r_cat (r_star (r_class is_space)) (r_class (chr_eqb "("))).

(** [\b] between [prev] and the head of [s]: exactly one side is a word
    character; outside the text counts as a non-word character. *)
Definition word_boundary (prev : option ascii) (s : text) : bool :=
  xorb (from_option is_word false prev) (from_option is_word false (head s)).

Fixpoint search_loop (prev : option ascii) (s : text) : bool :=
  (word_boundary prev s && matches_prefix path_function_call s) ||
  match s with
  | [] => false
  | c :: tl => search_loop (Some c) tl
  end.

Definition has_path_function (lowered : text) : bool := search_loop None lowered.

(** *** [_tabular_validate_query]

    [raw_query] is [None] when the request has no query; any other value
    is taken through [str()] by the caller of this embedding. *)
Definition validation_error {A} (message : string) : result A :=
  Raise (WorkerError VALIDATION_FAILED message).

Definition _tabular_validate_query (raw_query : option text) : result text :=
  match raw_query with
  | None => validation_error "missing query"
  | Some raw =>
    let query := strip raw in
    if text_eqb query [] then validation_error "missing query" else
    let checked := strip (_tabular_strip_sql_literals_and_comments query) in
    if text_eqb checked [] then validation_error "invalid query" else
    let semicolon_count := count ";" checked in
    if 1 <? semicolon_count then validation_error "query must be a single statement" else
    letr trimmed :=
      (if semicolon_count =? 1 then
         if negb (endswith ";" checked) then
           validation_error "query must be a single statement"
         else if negb (endswith ";" (rstrip query)) then
           validation_error "query must end with ';'"
         else Ok (strip (drop_last checked), strip (drop_last (rstrip query)))
       else Ok (checked, query)) in
    let checked := fst trimmed in
    let query := snd trimmed in
    if text_eqb checked [] then validation_error "invalid query" else
    match first_word checked with
    | None => Raise (OtherError "IndexError")
    | Some w =>
      let first_token := lower w in
      if negb (member first_token ["select"; "with"]%string) then
        validation_error "only SELECT/CTE queries are allowed"
      else
        let lowered := lower checked in
        match _tabular_find_dangerous_keyword lowered with
        | Some _ => validation_error "query must be read-only"
        | None =>
          if has_path_function lowered then
            validation_error "path-reading functions are not allowed"
          else Ok query
        end
    end
  end.

(** The validator on the request's string. *)
Definition validate (raw_query : string) : result string :=
  letr q := _tabular_validate_query (Some (txt raw_query)) in Ok (str q).

End Validator.

Import Validator.

(** ** Worker-level constants *)

Definition TABULAR_CHUNK_ROWS : Z := 100.
Definition TABULAR_CACHE_VERSION : Z := 1.
Definition TABULAR_TABLE_NAME : string := "data".
Definition TABULAR_TOTAL_COUNT_COLUMN : string := "__keenbench_total_row_count".

(** ** Chunk ranges of [get_map] *)

Module Chunks.

(** One entry of the chunk list: the dictionary
    [{"index": index, "rows": f"{start}-{end}"}], kept with the two numbers
    of the range; [rows] is the formatted value. *)
Record chunk := { index : Z; first_row : Z; last_row : Z }.

Definition rows (c : chunk) : string :=
  (str_of_int (first_row c) ++ "-" ++ str_of_int (last_row c))%string.

(** The [while start <= total_rows] loop, one iteration per unit of fuel;
    [None] when the fuel runs out before the loop condition fails. *)
Fixpoint chunks_loop (fuel : nat) (total_rows chunk_rows start index : Z)
  : option (list chunk) :=
  match fuel with
  | O => None
  | S fuel' =>
    if start <=? total_rows then
      let end_ := Z.min (start + chunk_rows - 1) total_rows in
      cons {| index := index; first_row := start; last_row := end_ |}
        <$> chunks_loop fuel' total_rows chunk_rows (end_ + 1) (index + 1)
    else Some []
  end.

(** [_tabular_chunks]; the loop runs at most [total_rows] times when
    [chunk_rows] is positive (with a chunk size below one the source loop
    does not end, and the result here is [None]). *)
Definition _tabular_chunks (total_rows chunk_rows : Z) : option (list chunk) :=
  if total_rows <=? 0 then Some []
  else chunks_loop (S (Z.to_nat total_rows)) total_rows chunk_rows 1 0.

End Chunks.

(** ** Inferred column types *)

Module ColumnTypes.

Definition integer_types : list string :=
  [ "TINYINT"; "SMALLINT"; "INTEGER"; "INT"; "BIGINT"; "HUGEINT";
    "UTINYINT"; "USMALLINT"; "UINTEGER"; "UBIGINT" ]%string.

Definition contains_any (words : list string) (t : text) : bool :=
  existsb (fun x => contains (txt x) t) words.

(** [db_type] is the text of [str(db_type or "")]. *)
Definition _tabular_inferred_type (db_type : text) : string :=
  let t := upper (strip db_type) in
  if text_eqb t [] then "string"
  else if member t integer_types then "integer"
  else if contains_any ["DECIMAL"; "NUMERIC"; "DOUBLE"; "FLOAT"; "REAL"]%string t then "float"
  else if member t ["BOOLEAN"; "BOOL"]%string then "boolean"
  else if contains_any ["DATE"; "TIME"]%string t then "date"
  else if contains_any ["CHAR"; "TEXT"; "STRING"; "VARCHAR"; "UUID"; "JSON"]%string t
  then "string"
  else "string".

End ColumnTypes.

(** ** The cancellation supervisor *)

Module Supervisor.

(** What the supervisor sees of a connection: whether [conn.interrupt] is
    callable. *)
Record connection_caps := { has_interrupt : bool }.

(** The observable end of one supervised run.  [timer_started],
    [timed_out], [interrupt_called], [done_set] and [timer_cancelled] record
    what happened to the timer and to the two shared cells. *)
Record supervised (A : Type) := {
  outcome : result A;
  timer_started : bool;
  timed_out : bool;
  interrupt_called : bool;
  done_set : bool;
  timer_cancelled : bool;
}.
Arguments outcome {A} _.
Arguments timer_started {A} _.
Arguments timed_out {A} _.
Arguments interrupt_called {A} _.
Arguments done_set {A} _.
Arguments timer_cancelled {A} _.

Definition timeout_message (timeout : Z) : string :=
  ("query timed out after " ++ str_of_int timeout ++ "ms")%string.

(** [_tabular_run_with_timeout].  The operation runs on a state [S] (the
    files it writes; [unit] for a read).  [configured] is the global
    [TABULAR_QUERY_TIMEOUT_MS].  [fired] says whether the timer's callback
    ran before the operation ended, that is, whether [timed_out["value"]] is
    set when the [except] clause reads it; what the interrupt did to the
    operation is part of the operation's own result. *)
Definition _tabular_run_with_timeout {S A : Type}
    (conn : connection_caps) (operation : S -> result A * S)
    (timeout_ms : option Z) (error_code : error_code)
    (configured : Z) (fired : bool) (s : S) : supervised A * S :=
  let timeout := match timeout_ms with Some t => t | None => configured end in
  if timeout <=? 0 then
    let r := operation s in
    ({| outcome := fst r; timer_started := false; timed_out := false;
        interrupt_called := false; done_set := false; timer_cancelled := false |},
     snd r)
  else
    let r := operation s in
    let surfaced :=
      match fst r with
      | Ok v => Ok v
      | Raise e =>
        if fired then Raise (WorkerError error_code (timeout_message timeout))
        else Raise e
      end in
    ({| outcome := surfaced; timer_started := true; timed_out := fired;
        interrupt_called := fired && has_interrupt conn;
        done_set := true; timer_cancelled := true |},
     snd r).

End Supervisor.

(** ** The embedded engine, as far as the worker observes it *)

Module Engine.

(** Values of a result row.  Floats, decimals, dates and binary values are
    left out; on the values kept, [_tabular_json_value] is the identity. *)
Inductive dbval :=
  | v_null
  | v_bool (b : bool)
  | v_int (n : Z)
  | v_text (t : string).

Definition row := list dbval.

(** A result set: [description] holds (name, type tag) per column. *)
Record relation := {
  description : list (string * string);
  tuples : list row;
}.

(** [LIMIT n OFFSET k] on a list of rows. *)
Definition limit_offset (n k : Z) (rs : list row) : list row :=
  take (Z.to_nat n) (drop (Z.to_nat k) rs).

(** The statement
    [SELECT q.*, COUNT( * ) OVER() AS total FROM (query) AS q LIMIT ? OFFSET ?]
    on the result [q] of the inner query: the window aggregate is computed
    over all rows of [q], then the window is cut. *)
Definition windowed_select (q : relation) (n k : Z) : relation :=
  {| description := description q ++ [(TABULAR_TOTAL_COUNT_COLUMN, "BIGINT"%string)];
     tuples := limit_offset n k
                 (map (fun r => r ++ [v_int (Z.of_nat (length (tuples q)))]) (tuples q)) |}.

(** [SELECT COUNT( * ) AS total_row_count FROM (query) AS q]: one row. *)
Definition count_select (q : relation) : relation :=
  {| description := [("total_row_count"%string, "BIGINT"%string)];
     tuples := [[v_int (Z.of_nat (length (tuples q)))]] |}.

(** [int(v or 0)] on a row value. *)
Definition int_or_zero (v : dbval) : result Z :=
  match v with
  | v_null => Ok 0
  | v_bool b => Ok (if b then 1 else 0)
  | v_int n => Ok n
  | v_text t =>
    if String.eqb t "" then Ok 0
    else match int_of_text (txt t) with
         | Some n => Ok n
         | None => Raise (OtherError "ValueError")
         end
  end.

Definition _tabular_json_value (v : dbval) : dbval := v.

End Engine.

(** ** The query executor *)

Module Executor.
Import Supervisor Engine.

(** A read-only connection to the cache: the answer of the engine to an
    inner query text (the table [data] is what it answers to
    [SELECT * FROM data]) and what the supervisor can do with it. *)
Record connection := {
  run_query : text -> result relation;
  caps : connection_caps;
}.

(** The statements that [tabular_query] itself executes on its connection,
    in order. *)
Inductive statement :=
  | windowed_statement (query : text) (window_rows window_offset : Z)
  | count_statement (query : text).

(** [value] is the request parameter, [None] when it is missing; a
    parameter that is present is taken to be an integer already, so the
    [int(value)] of the source does not raise. *)
Definition _tabular_parse_positive_int (value : option Z) (name : string) (default : Z)
  : result Z :=
  match value with
  | None => Ok default
  | Some parsed =>
    if parsed <=? 0 then Raise (WorkerError VALIDATION_FAILED ("invalid " ++ name))
    else Ok parsed
  end.

Definition _tabular_parse_non_negative_int (value : option Z) (name : string) (default : Z)
  : result Z :=
  match value with
  | None => Ok default
  | Some parsed =>
    if parsed <? 0 then Raise (WorkerError VALIDATION_FAILED ("invalid " ++ name))
    else Ok parsed
  end.

(** The loop over [rows_local]: the last column is taken off every row and
    the total is read from it, the last row winning. *)
Fixpoint trim_rows (total_local : Z) (rows_local : list row) : result (list row * Z) :=
  match rows_local with
  | [] => Ok ([], total_local)
  | values :: rest =>
    match last values with
    | None =>
      letr r := trim_rows total_local rest in Ok ([] :: fst r, snd r)
    | Some v =>
      letr total := int_or_zero v in
      letr r := trim_rows total rest in
      Ok (removelast values :: fst r, snd r)
    end
  end.

Record window := {
  w_rows : list row;
  w_columns : list string;
  w_column_types : list string;
  w_total : Z;
}.

(** The inner functions of [tabular_query].  The engine is asked through
    [run_query] for the result of the inner text, and the statement that the
    source builds around the text is evaluated on that result by
    [windowed_select] and [count_select].  That is the answer of the engine
    when the text is one complete query, as [SELECT * FROM data] is, and the
    bounds are below 2^63; a text that ends inside a comment or leaves a
    parenthesis open makes another statement of the line it is put into. *)
Definition _read_window_with_total (conn : connection) (query : text)
    (window_rows window_offset : Z) (log : list statement)
  : result window * list statement :=
  let log := log ++ [windowed_statement query window_rows window_offset] in
  (letr q := run_query conn query in
   let cursor := windowed_select q window_rows window_offset in
   let rows_local := tuples cursor in
   match description cursor with
   | [] => Ok {| w_rows := []; w_columns := []; w_column_types := []; w_total := 0 |}
   | _ =>
     let data_description := removelast (description cursor) in
     let columns_local := map fst data_description in
     let column_types_local :=
       map (fun d => ColumnTypes._tabular_inferred_type (txt (snd d))) data_description in
     letr r := trim_rows 0 rows_local in
     Ok {| w_rows := fst r; w_columns := columns_local;
           w_column_types := column_types_local; w_total := snd r |}
   end, log).

Definition _count_rows (conn : connection) (query : text) (log : list statement)
  : result Z * list statement :=
  let log := log ++ [count_statement query] in
  (letr q := run_query conn query in
   match tuples (count_select q) with
   | r :: _ =>
     match r with
     | v :: _ => int_or_zero v
     | [] => Raise (OtherError "IndexError")
     end
   | [] => Ok 0
   end, log).

Record query_params := {
  p_query : option text;
  p_window_rows : option Z;
  p_window_offset : option Z;
}.

Record query_result := {
  columns : list string;
  column_types : list string;
  rows : list row;
  row_count : Z;
  total_row_count : Z;
  window_rows : Z;
  window_offset : Z;
  has_more : bool;
}.

(** [except WorkerError: raise / except Exception as err: raise
    WorkerError(code, prefix + str(err))] *)
Definition wrap_errors {A} (code : error_code) (prefix : string) (r : result A) : result A :=
  match r with
  | Ok v => Ok v
  | Raise (WorkerError c m) => Raise (WorkerError c m)
  | Raise (OtherError what) => Raise (WorkerError code (prefix ++ what))
  end.

(** [tabular_query] from the validated cache on, that is after
    [_tabular_ensure_cache] has returned; [conn] is the read-only connection
    as [_tabular_open_connection] hands it over, its settings sent.
    [configured] is [TABULAR_QUERY_TIMEOUT_MS]; [fired1] and [fired2] say
    whether the timer of the first and of the second supervised call fired.
    The elapsed time of the answer is left out. *)
Definition tabular_query (configured : Z) (conn : connection) (params : query_params)
    (fired1 fired2 : bool) : result query_result * list statement :=
  match _tabular_validate_query (p_query params) with
  | Raise e => (Raise e, [])
  | Ok query =>
  match _tabular_parse_positive_int (p_window_rows params) "window_rows" TABULAR_CHUNK_ROWS with
  | Raise e => (Raise e, [])
  | Ok window_rows =>
  match _tabular_parse_non_negative_int (p_window_offset params) "window_offset" 0 with
  | Raise e => (Raise e, [])
  | Ok window_offset =>
    let first :=
      _tabular_run_with_timeout (caps conn)
        (_read_window_with_total conn query window_rows window_offset)
        None FILE_READ_FAILED configured fired1 [] in
    match outcome (fst first) with
    | Raise e => (wrap_errors FILE_READ_FAILED "query failed: " (Raise e), snd first)
    | Ok w =>
      let second :=
        if (length (w_rows w) =? 0)%nat && (0 <? window_offset) then
          let c := _tabular_run_with_timeout (caps conn) (_count_rows conn query)
                     None FILE_READ_FAILED configured fired2 (snd first) in
          (outcome (fst c), snd c)
        else (Ok (w_total w), snd first) in
      match fst second with
      | Raise e => (wrap_errors FILE_READ_FAILED "query failed: " (Raise e), snd second)
      | Ok total_row_count =>
        let row_values := map (map _tabular_json_value) (w_rows w) in
        (Ok {| columns := w_columns w;
               column_types := w_column_types w;
               rows := row_values;
               row_count := Z.of_nat (length row_values);
               total_row_count := total_row_count;
               window_rows := window_rows;
               window_offset := window_offset;
               has_more := window_offset + Z.of_nat (length row_values) <? total_row_count |},
         snd second)
      end
    end
  end end end.

End Executor.

(** ** Export writers and the round-trip writer *)

Module Exporter.
Import Supervisor Engine.

(** What a path of the workspace holds.  A delimited-text file is the list
    of the records written to it so far; a workbook file is the workbook
    that was saved; [workbook_partial] is what an interrupted save leaves. *)
Record workbook := { title : string; cells : list row }.

Inductive file :=
  | empty_file
  | csv_file (records : list (list string))
  | workbook_file (wb : workbook)
  | workbook_partial.

(** The result of [conn.execute(query)]: every [fetchmany] takes the next
    entry of [batches], which is a batch of rows or an exception (a failing
    or interrupted query); past the end a [fetchmany] returns no row. *)
Record cursor := {
  c_description : list (string * string);
  c_batches : list (result (list row));
}.

Record connection := {
  execute : text -> result cursor;
  caps : connection_caps;
}.

Definition exn_text (e : exn) : string :=
  match e with
  | WorkerError _ m => m
  | OtherError what => what
  end.

(** [str(_tabular_csv_cell_value(value))], the text the csv writer emits
    for a cell. *)
Definition _tabular_csv_cell_value (value : dbval) : string :=
  match value with
  | v_null => ""
  | v_bool b => if b then "True" else "False"
  | v_int n => str_of_int n
  | v_text t => t
  end.

(** [ILLEGAL_CHARACTERS_RE] of the spreadsheet library: the control
    characters that XML forbids. *)
Definition is_illegal_xml (c : ascii) : bool :=
  in_range 0 8 c || in_range 11 12 c || in_range 14 31 c.

Definition _xlsx_sanitize_value (value : dbval) : dbval :=
  match value with
  | v_text t => v_text (str (List.filter (fun c => negb (is_illegal_xml c)) (txt t)))
  | v => v
  end.

(** The [while True] loop of the CSV writer over the open handle:
    [records] is the content of the target so far. *)
Fixpoint write_batches (records : list (list string)) (row_count : Z)
    (batches : list (result (list row))) : result Z * list (list string) :=
  match batches with
  | [] => (Ok row_count, records)
  | Raise e :: _ => (Raise e, records)
  | Ok [] :: _ => (Ok row_count, records)
  | Ok batch :: rest =>
    write_batches (records ++ map (map _tabular_csv_cell_value) batch)
      (row_count + Z.of_nat (length batch)) rest
  end.

(** The inner [_export] of [_tabular_export_csv]: the target is opened for
    writing, which empties it, and every row goes to it as it is fetched. *)
Definition export_csv_operation (conn : connection) (query : text) (target_path : string)
    (fs : gmap string file) : result (Z * Z) * gmap string file :=
  match execute conn query with
  | Raise e => (Raise e, fs)
  | Ok cur =>
    let columns := map fst (c_description cur) in
    let w := write_batches [columns] 0 (c_batches cur) in
    (letr row_count := fst w in Ok (row_count, Z.of_nat (length columns)),
     <[target_path := csv_file (snd w)]> fs)
  end.

Definition _tabular_export_csv (conn : connection) (query : text) (target_path : string)
    (configured : Z) (fired : bool) (fs : gmap string file)
  : supervised (Z * Z) * gmap string file :=
  _tabular_run_with_timeout (caps conn) (export_csv_operation conn query target_path)
    None FILE_WRITE_FAILED configured fired fs.

(** The rows of the workbook are collected in memory. *)
Fixpoint append_batches (cells : list row) (row_count : Z)
    (batches : list (result (list row))) : result (Z * list row) :=
  match batches with
  | [] => Ok (row_count, cells)
  | Raise e :: _ => Raise e
  | Ok [] :: _ => Ok (row_count, cells)
  | Ok batch :: rest =>
    append_batches
      (cells ++ map (map (fun v => _xlsx_sanitize_value (_tabular_json_value v))) batch)
      (row_count + Z.of_nat (length batch)) rest
  end.

(** [wb.save(path)] writes the archive to [path] itself; [save_fails] is a
    save that raises after it has begun to write. *)
Inductive save_outcome :=
  | save_completes
  | save_fails (e : exn).

Definition wb_save (wb : workbook) (path : string) (how : save_outcome)
    (fs : gmap string file) : result unit * gmap string file :=
  match how with
  | save_completes => (Ok tt, <[path := workbook_file wb]> fs)
  | save_fails e => (Raise e, <[path := workbook_partial]> fs)
  end.

(** The inner [_export] of [_tabular_export_xlsx]; [sheet_title] is the
    normalized sheet name. *)
Definition export_xlsx_operation (conn : connection) (query : text) (target_path : string)
    (sheet_title : string) (how : save_outcome) (fs : gmap string file)
  : result (Z * Z) * gmap string file :=
  match execute conn query with
  | Raise e => (Raise e, fs)
  | Ok cur =>
    let columns := map fst (c_description cur) in
    let header := map (fun c => _xlsx_sanitize_value (v_text c)) columns in
    match append_batches [header] 0 (c_batches cur) with
    | Raise e => (Raise e, fs)
    | Ok (row_count, cells) =>
      let saved := wb_save {| title := sheet_title; cells := cells |} target_path how fs in
      (letr _u := fst saved in Ok (row_count, Z.of_nat (length columns)), snd saved)
    end
  end.

Definition _tabular_export_xlsx (conn : connection) (query : text) (target_path : string)
    (sheet_title : string) (how : save_outcome) (configured : Z) (fired : bool)
    (fs : gmap string file) : supervised (Z * Z) * gmap string file :=
  _tabular_run_with_timeout (caps conn)
    (export_xlsx_operation conn query target_path sheet_title how)
    None FILE_WRITE_FAILED configured fired fs.

(** [_xlsx_save_workbook_atomic].  [tmp_path] is the name [mkstemp] chose in
    the directory of the target; [replace_ok] says whether [os.replace]
    succeeds.  The removal of the temporary file in the handler is taken to
    succeed. *)
Definition _xlsx_save_workbook_atomic (wb : workbook) (target_path tmp_path : string)
    (how : save_outcome) (replace_ok : bool) (fs : gmap string file)
  : result unit * gmap string file :=
  let fs := <[tmp_path := empty_file]> fs in
  let saved := wb_save wb tmp_path how fs in
  match fst saved with
  | Ok _ =>
    if replace_ok then
      (Ok tt, delete tmp_path (<[target_path := workbook_file wb]> (snd saved)))
    else
      (Raise (WorkerError FILE_WRITE_FAILED "failed to write xlsx: replace failed"),
       delete tmp_path (snd saved))
  | Raise e =>
    (Raise (WorkerError FILE_WRITE_FAILED ("failed to write xlsx: " ++ exn_text e)),
     delete tmp_path (snd saved))
  end.

Inductive export_format := fmt_csv | fmt_xlsx.

(** The writing part of [tabular_export]: the writer for the format, and
    the handlers around it. *)
Definition tabular_export_write (format : export_format) (conn : connection)
    (export_query : text) (target_path sheet_title : string) (how : save_outcome)
    (configured : Z) (fired : bool) (fs : gmap string file)
  : result (Z * Z) * gmap string file :=
  let r :=
    match format with
    | fmt_csv => _tabular_export_csv conn export_query target_path configured fired fs
    | fmt_xlsx =>
      _tabular_export_xlsx conn export_query target_path sheet_title how configured fired fs
    end in
  (Executor.wrap_errors FILE_WRITE_FAILED "export failed: " (outcome (fst r)), snd r).

End Exporter.

(** ** The cache store *)

Module Cache.

(** *** Python values read back from the metadata record *)

(** A float is kept as its [repr] text together with the number it
    denotes; [exact] is [None] for nan and the infinities. *)
Record pyfloat := { repr : string; exact : option Q }.

Inductive pyval :=
  | PNone
  | PBool (b : bool)
  | PInt (n : Z)
  | PFloat (f : pyfloat)
  | PStr (s : string)
  | PList (items : list pyval)
  | PDict (entries : gmap string pyval).

(** [d.get(key)] and [d.get(key, default)] *)
Definition get (d : gmap string pyval) (key : string) : pyval :=
  default PNone (d !! key).

Definition get_or (d : gmap string pyval) (key : string) (dflt : pyval) : pyval :=
  default dflt (d !! key).

(** [int(v)]; [None] when it raises. *)
Definition py_int (v : pyval) : option Z :=
  match v with
  | PInt n => Some n
  | PBool b => Some (if b then 1 else 0)
  | PFloat f => (fun q => Z.quot (Qnum q) (Z.pos (Qden q))) <$> exact f
  | PStr s => int_of_text (txt s)
  | PNone | PList _ | PDict _ => None
  end.

(** [v == n] for an integer [n] *)
Definition py_eq_int (v : pyval) (n : Z) : bool :=
  match v with
  | PInt m => m =? n
  | PBool b => (if b then 1 else 0) =? n
  | PFloat f =>
    match exact f with
    | Some q => Qeq_bool q (inject_Z n)
    | None => false
    end
  | _ => false
  end.

(** [v == s] for a text [s] *)
Definition py_eq_str (v : pyval) (s : string) : bool :=
  match v with
  | PStr t => String.eqb t s
  | _ => false
  end.

Definition py_truthy (v : pyval) : bool :=
  match v with
  | PNone => false
  | PBool b => b
  | PInt n => negb (n =? 0)
  | PFloat f =>
    match exact f with
    | Some q => negb (Qeq_bool q 0)
    | None => true
    end
  | PStr s => negb (String.eqb s "")
  | PList l => match l with [] => false | _ => true end
  | PDict d => negb (bool_decide (d = ∅))
  end.

(** The text of [str(v or "")].  The text of a non-empty list or
    dictionary is not spelled out: [None] stands for a text that begins with
    a bracket. *)
Definition str_or_empty (v : pyval) : option string :=
  if negb (py_truthy v) then Some ""%string
  else
    match v with
    | PStr s => Some s
    | PInt n => Some (str_of_int n)
    | PBool _ => Some "True"%string
    | PFloat f => Some (repr f)
    | _ => None
    end.

Definition is_dict (v : pyval) : option (gmap string pyval) :=
  match v with PDict d => Some d | _ => None end.

Definition is_list (v : pyval) : bool :=
  match v with PList _ => true | _ => false end.

(** *** The source signature *)

Inductive hexdigit :=
  | x0 | x1 | x2 | x3 | x4 | x5 | x6 | x7 | x8 | x9 | xa | xb | xc | xd | xe | xf.

Definition hex_char (d : hexdigit) : ascii :=
  match d with
  | x0 => "0" | x1 => "1" | x2 => "2" | x3 => "3" | x4 => "4" | x5 => "5"
  | x6 => "6" | x7 => "7" | x8 => "8" | x9 => "9" | xa => "a" | xb => "b"
  | xc => "c" | xd => "d" | xe => "e" | xf => "f"
  end%char.

(** [hasher.hexdigest()] *)
Definition hexdigest (d : list hexdigit) : string := str (map hex_char d).

(** The dictionary that [_tabular_source_signature] returns: two integers
    and the digest of the bytes of the file. *)
Record signature := {
  size_bytes : Z;
  mtime_ns : Z;
  sha256 : list hexdigit;
}.

(** [str(a or "") != str(b or "")] for a stored value [a] and the digest [b]
    of a signature; a text that begins with a bracket is no digest. *)
Definition digest_differs (stored : pyval) (d : list hexdigit) : bool :=
  match str_or_empty stored with
  | Some s => negb (String.eqb s (hexdigest d))
  | None => true
  end.

(** [_tabular_cache_is_fresh]; [db_is_file] is [os.path.isfile(db_path)]. *)
Definition _tabular_cache_is_fresh (metadata : gmap string pyval) (rel_path : string)
    (source_sig : signature) (db_is_file : bool) : bool :=
  if negb (py_eq_int (get metadata "version") TABULAR_CACHE_VERSION) then false else
  match is_dict (get metadata "source") with
  | None => false
  | Some source =>
    if negb (py_eq_str (get source "path") rel_path) then false else
    match py_int (get_or source "size_bytes" (PInt (-1))),
          py_int (get_or source "mtime_ns" (PInt (-1))) with
    | Some size, Some mtime =>
      if negb (size =? size_bytes source_sig) then false
      else if negb (mtime =? mtime_ns source_sig) then false
      else if digest_differs (get source "sha256") (sha256 source_sig) then false
      else if negb db_is_file then false
      else if negb (is_list (get metadata "columns")) then false
      else true
    | _, _ => false
    end
  end.

(** *** The files of one cache entry *)

Record sniffed := { delimiter : string; quote_char : string; has_header : bool }.

(** What the engine makes of the bytes of a source file. *)
Record ingested := {
  encoding : string;
  confidence : pyfloat;
  sniff : sniffed;
  row_count : Z;
  table_info : list (string * string);
}.

Inductive ingest_outcome :=
  | encoding_undetected (e : exn)
  | load_fails (e : exn)
  | loads (i : ingested).

(** A source file: its signature and what ingesting its bytes gives. *)
Record source_file := {
  signature_of : signature;
  ingest_of : ingest_outcome;
}.

(** The metadata record on disk: not JSON, or the value [json.load]
    returns.  Writing a value and reading it back gives the value. *)
Inductive meta_blob :=
  | unreadable
  | parsed (v : pyval).

(** The source file and the cache files derived from its path.  Two
    counters observe the run: [rebuilds] counts the calls of
    [_tabular_rebuild_cache], [ingestions] counts how often the engine was
    asked to load the source. *)
Record world := {
  source : source_file;
  meta_file : option meta_blob;
  db_file : bool;
  wal_file : bool;
  rebuilds : nat;
  ingestions : nat;
}.

(** The result of [_tabular_validate_source]. *)
Record source_ref := {
  workbench_id : string;
  root : string;
  rel_path : string;
  source_path : string;
}.

Definition _tabular_source_signature (w : world) : signature := signature_of (source w).

Definition _tabular_load_metadata (w : world) : option (gmap string pyval) :=
  match meta_file w with
  | Some (parsed (PDict d)) => Some d
  | _ => None
  end.

Definition _tabular_write_metadata (payload : gmap string pyval) (w : world) : world :=
  {| source := source w; meta_file := Some (parsed (PDict payload));
     db_file := db_file w; wal_file := wal_file w;
     rebuilds := rebuilds w; ingestions := ingestions w |}.

(** [_tabular_remove_cache_files] when every removal succeeds. *)
Definition _tabular_remove_cache_files (w : world) : world :=
  {| source := source w; meta_file := None; db_file := false; wal_file := false;
     rebuilds := rebuilds w; ingestions := ingestions w |}.

(** Opening the read-write connection creates the cache artifact; the load
    of the source follows. *)
Definition open_and_load (w : world) : world :=
  {| source := source w; meta_file := meta_file w; db_file := true;
     wal_file := wal_file w; rebuilds := rebuilds w; ingestions := S (ingestions w) |}.

Definition count_rebuild (w : world) : world :=
  {| source := source w; meta_file := meta_file w; db_file := db_file w;
     wal_file := wal_file w; rebuilds := S (rebuilds w); ingestions := ingestions w |}.

Fixpoint collect_schema (idx : Z) (info : list (string * string)) : list pyval :=
  match info with
  | [] => []
  | (name, db_type) :: rest =>
    PDict (list_to_map
      [ ("name"%string, PStr name);
        ("index"%string, PInt idx);
        ("duckdb_type"%string, PStr db_type);
        ("inferred_type"%string, PStr (ColumnTypes._tabular_inferred_type (txt db_type))) ])
    :: collect_schema (idx + 1) rest
  end.

Definition _tabular_collect_schema (info : list (string * string)) : list pyval :=
  collect_schema 0 info.

Definition build_metadata (src : source_ref) (source_sig : signature) (i : ingested)
  : gmap string pyval :=
  let columns := _tabular_collect_schema (table_info i) in
  list_to_map
    [ ("version"%string, PInt TABULAR_CACHE_VERSION);
      ("source"%string, PDict (list_to_map
         [ ("root"%string, PStr (root src));
           ("path"%string, PStr (rel_path src));
           ("size_bytes"%string, PInt (size_bytes source_sig));
           ("mtime_ns"%string, PInt (mtime_ns source_sig));
           ("sha256"%string, PStr (hexdigest (sha256 source_sig))) ]));
      ("format"%string, PStr "csv");
      ("delimiter"%string, PStr (delimiter (sniff i)));
      ("quote_char"%string, PStr (quote_char (sniff i)));
      ("has_header"%string, PBool (has_header (sniff i)));
      ("encoding_detected"%string, PStr (encoding i));
      ("encoding_confidence"%string, PFloat (confidence i));
      ("row_count"%string, PInt (row_count i));
      ("column_count"%string, PInt (Z.of_nat (length columns)));
      ("columns"%string, PList columns) ].

Definition _tabular_rebuild_cache (src : source_ref) (source_sig : signature) (w : world)
  : result (gmap string pyval) * world :=
  let w := _tabular_remove_cache_files (count_rebuild w) in
  match ingest_of (source w) with
  | encoding_undetected e => (Raise e, w)
  | load_fails e =>
    (Executor.wrap_errors FILE_READ_FAILED "failed to load csv: " (Raise e), open_and_load w)
  | loads i =>
    let w := open_and_load w in
    let metadata := build_metadata src source_sig i in
    (Ok metadata, _tabular_write_metadata metadata w)
  end.

Record cache := {
  metadata : gmap string pyval;
  cache_source : source_ref;
}.

(** [_tabular_ensure_cache] after [_tabular_validate_source] has returned
    [src] and the signature of the source and the cache paths have been
    computed; [w] holds the source file and the cache files at these
    paths. *)
Definition _tabular_ensure_cache (src : source_ref) (w : world) : result cache * world :=
  let source_sig := _tabular_source_signature w in
  let fresh :=
    match _tabular_load_metadata w with
    | Some metadata =>
      if _tabular_cache_is_fresh metadata (rel_path src) source_sig (db_file w)
      then Some metadata else None
    | None => None
    end in
  match fresh with
  | Some metadata => (Ok {| metadata := metadata; cache_source := src |}, w)
  | None =>
    let r := _tabular_rebuild_cache src source_sig w in
    (letr metadata := fst r in Ok {| metadata := metadata; cache_source := src |}, snd r)
  end.

End Cache.

(** ** Configuration and sandbox helpers *)

Module Helpers.

(** [p in t] for a one-character needle, and [t.endswith(p)]. *)
Definition has_char (c : ascii) (t : text) : bool := existsb (chr_eqb c) t.

Definition ends_with (p t : text) : bool := starts_with (rev p) (rev t).

(** [parse_int_clamped]: [value] is an environment entry, [None] when the
    variable is not set ([str(None)] is the text "None", which is no
    integer). *)
Definition parse_int_clamped (value : option text) (default minimum maximum : Z) : Z :=
  let shown := match value with Some t => t | None => txt "None" end in
  match int_of_text (strip shown) with
  | None => default
  | Some parsed =>
    if parsed <? minimum then minimum
    else if maximum <? parsed then maximum
    else parsed
  end.

Definition TABULAR_QUERY_TIMEOUT_MS : Z := 5000.

(** The query timeout after [init_config]; [env] is the environment entry
    [KEENBENCH_TABULAR_QUERY_TIMEOUT_MS]. *)
Definition configured_query_timeout (env : option text) : Z :=
  parse_int_clamped env TABULAR_QUERY_TIMEOUT_MS 100 600000.

(** [line.split("=", 1)] when the line has an equals sign. *)
Fixpoint split_first (c : ascii) (t : text) : option (text * text) :=
  match t with
  | [] => None
  | x :: tl =>
    if chr_eqb x c then Some ([], tl)
    else (fun kv => (x :: fst kv, snd kv)) <$> split_first c tl
  end.

(** The quote handling of [_split_env_line]: [value[1:-1]] when the value
    has two characters or more and starts and ends with the same kind of
    quote. *)
Definition quoted_with (q : ascii) (value : text) : bool :=
  match value with
  | x :: _ => chr_eqb x q && endswith q value
  | [] => false
  end.

Definition unquote_env (value : text) : text :=
  if (2 <=? length value)%nat
     && (quoted_with Validator.DQ value || quoted_with Validator.SQ value)
  then removelast (tail value)
  else value.

Definition _split_env_line (line : text) : option text * option text :=
  match split_first "=" line with
  | None => (None, None)
  | Some (key, value) =>
    let key := strip key in
    match key with
    | [] => (None, None)
    | _ => (Some key, Some (unquote_env (strip value)))
    end
  end.

Definition sandbox_violation {A} (message : string) : result A :=
  Raise (WorkerError SANDBOX_VIOLATION message).

(** [validate_rel_path], with [os.path.isabs] of a POSIX system: a path is
    absolute when it starts with a slash. *)
Definition validate_rel_path (path : text) : result unit :=
  if text_eqb path [] then Raise (WorkerError VALIDATION_FAILED "missing path")
  else if starts_with (txt "/") path then sandbox_violation "absolute path not allowed"
  else if starts_with (txt "..") path || contains (txt "..") path
  then sandbox_violation "invalid path"
  else if has_char "/" path || has_char "\" path
  then sandbox_violation "nested paths are not allowed"
  else Ok tt.

Definition validate_root (root : text) : result unit :=
  if text_eqb root [] then sandbox_violation "missing root"
  else if starts_with (txt "/") root then sandbox_violation "absolute root not allowed"
  else if starts_with (txt "..") root || contains (txt "..") root
  then sandbox_violation "invalid root"
  else if has_char "/" root || has_char "\" root then sandbox_violation "invalid root"
  else Ok tt.

Definition validate_write_root (root : text) : result unit :=
  letr _u := validate_root root in
  if text_eqb root (txt "draft") then Ok tt
  else if starts_with (txt "draft.") root && ends_with (txt ".staging") root then Ok tt
  else sandbox_violation "writes must target draft".

End Helpers.

(** ** Quoting, type families, column selection, sheet names *)

Module Sql.
Import Validator.

(** [t.replace(c, c + c)] *)
Definition double_char (c : ascii) (t : text) : text :=
  flat_map (fun x => if chr_eqb x c then [c; c] else [x]) t.

Definition _tabular_quote_ident (identifier : text) : text :=
  DQ :: double_char DQ identifier ++ [DQ].

Definition _tabular_quote_literal (value : text) : text :=
  SQ :: double_char SQ value ++ [SQ].

Definition _tabular_type_family (inferred_type : string) : string :=
  if String.eqb inferred_type "integer" || String.eqb inferred_type "float" then "numeric"
  else if String.eqb inferred_type "boolean" then "boolean"
  else if String.eqb inferred_type "date" then "date"
  else if String.eqb inferred_type "string" then "string"
  else "other".

(** One entry of the schema, as [_tabular_collect_schema] writes it. *)
Record column := {
  col_name : string;
  col_index : Z;
  col_duckdb_type : string;
  col_inferred_type : string;
}.

(** The parameter [columns] of a request: missing, not a list, or a list
    whose items are texts ([None] for an item that is no text). *)
Inductive requested_columns :=
  | columns_missing
  | columns_not_a_list
  | columns_list (items : list (option text)).

(** [schema_by_name]: a later column of the same name replaces an earlier
    one. *)
Definition schema_by_name (schema : list column) : gmap string column :=
  foldl (fun m col => <[col_name col := col]> m) ∅ schema.

Definition validation_failed {A} (message : string) : result A :=
  Raise (WorkerError VALIDATION_FAILED message).

(** The loop over the requested names; [seen] holds the names selected so
    far. *)
Fixpoint select_loop (by_name : gmap string column) (seen : gset string)
    (requested : list (option text)) : result (list column) :=
  match requested with
  | [] => Ok []
  | None :: _ => validation_failed "invalid column name"
  | Some raw :: rest =>
    match strip raw with
    | [] => validation_failed "invalid column name"
    | name =>
      if bool_decide (str name ∈ seen) then select_loop by_name seen rest
      else
        match by_name !! str name with
        | None => validation_failed ("unknown column: " ++ str name)
        | Some col =>
          letr selected := select_loop by_name ({[str name]} ∪ seen) rest in
          Ok (col :: selected)
        end
    end
  end.

Definition _tabular_selected_columns (requested : requested_columns) (schema : list column)
  : result (list column) :=
  match requested with
  | columns_missing => Ok schema
  | columns_not_a_list => validation_failed "columns must be a non-empty list"
  | columns_list [] => validation_failed "columns must be a non-empty list"
  | columns_list items =>
    letr selected := select_loop (schema_by_name schema) ∅ items in
    match selected with
    | [] => validation_failed "missing columns"
    | _ => Ok selected
    end
  end.

(** The characters that [_tabular_normalize_sheet_name] replaces. *)
Definition is_sheet_forbidden (c : ascii) : bool :=
  existsb (chr_eqb c) ["\"; "/"; "?"; "*"; "["; "]"; ":"]%char.

(** [value] is the text of [str(value or "")]. *)
Definition _tabular_normalize_sheet_name (value : text) : text :=
  let raw := match strip value with [] => txt "Sheet1" | r => r end in
  let sanitized := map (fun c => if is_sheet_forbidden c then "_"%char else c) raw in
  match take 31 sanitized with
  | [] => txt "Sheet1"
  | t => t
  end.

(** [_tabular_try_set_statement]: [accepts] says which statements the
    engine executes without raising; the second component lists the
    statements that were sent. *)
Fixpoint _tabular_try_set_statement (accepts : string -> bool) (statements : list string)
  : bool * list string :=
  match statements with
  | [] => (false, [])
  | statement :: rest =>
    if accepts statement then (true, [statement])
    else let r := _tabular_try_set_statement accepts rest in
         (fst r, statement :: snd r)
  end.

End Sql.

(** ** Cache entries by key *)

Module Store.
Import Cache.

(** The source file is replaced by another version. *)
Definition source_replaced (file : source_file) (w : world) : world :=
  {| source := file; meta_file := meta_file w; db_file := db_file w;
     wal_file := wal_file w; rebuilds := rebuilds w; ingestions := ingestions w |}.

(** Which of the [os.remove] calls of [_tabular_remove_cache_files]
    succeed; a call that fails is passed over and leaves its file. *)
Record removal := {
  db_removed : bool;
  wal_removed : bool;
  meta_removed : bool;
}.

(** [_tabular_remove_cache_files] with the outcome of each removal;
    [Cache._tabular_remove_cache_files] is the case where all succeed. *)
Definition _tabular_remove_cache_files (r : removal) (w : world) : world :=
  {| source := source w;
     meta_file := if meta_removed r then None else meta_file w;
     db_file := db_file w && negb (db_removed r);
     wal_file := wal_file w && negb (wal_removed r);
     rebuilds := rebuilds w; ingestions := ingestions w |}.

(** The cache files of the worker: one entry for each pair of cache paths.
    An entry holds the source file that the last call for it read, its cache
    files and its two counters. *)
Abbreviation store := (gmap (string * string) world).

(** An entry none of whose files exists. *)
Definition no_files (file : source_file) : world :=
  {| source := file; meta_file := None; db_file := false; wal_file := false;
     rebuilds := 0; ingestions := 0 |}.

(** The entry at a pair of cache paths, as a call that reads [file] as its
    source finds it. *)
Definition entry_at (st : store) (paths : string * string) (file : source_file) : world :=
  match st !! paths with
  | Some w => source_replaced file w
  | None => no_files file
  end.

Definition rebuilds_at (st : store) (paths : string * string) : nat :=
  match st !! paths with
  | Some w => rebuilds w
  | None => 0%nat
  end.

Section Keys.

(** [hashlib.sha256(t.encode("utf-8")).hexdigest()] *)
Variable sha256_hex : text -> string.

(** The directory of the cache files of a workbench, as the first lines of
    [_tabular_cache_paths] compute it: the absolute path of [meta/tabular]
    under the workbench; they raise when no workbenches directory is set or
    the directory is not inside the workbench. *)
Variable tabular_dir : string -> result string.

Definition _tabular_cache_key (rel_path : text) : string :=
  sha256_hex (lower (strip rel_path)).

Definition _tabular_cache_paths (workbench_id : string) (rel_path : text)
  : result (string * string) :=
  letr dir := tabular_dir workbench_id in
  let key := _tabular_cache_key rel_path in
  Ok (String.append dir (String.append "/" (String.append key ".duckdb")),
      String.append dir (String.append "/" (String.append key ".meta.json"))).

(** [_tabular_ensure_cache] with its cache paths, after
    [_tabular_validate_source] has returned [src] and the signature of
    [file], the file at the source path, has been read: the entry at the
    paths is checked and rebuilt as [Cache._tabular_ensure_cache] does it. *)
Definition _tabular_ensure_cache (src : source_ref) (file : source_file) (st : store)
  : result cache * store :=
  match _tabular_cache_paths (workbench_id src) (txt (rel_path src)) with
  | Raise e => (Raise e, st)
  | Ok paths =>
    let r := Cache._tabular_ensure_cache src (entry_at st paths file) in
    (fst r, <[paths := snd r]> st)
  end.

(** [_tabular_invalidate_cache_for_rel_path] *)
Definition _tabular_invalidate_cache_for_rel_path (r : removal) (workbench_id : string)
    (rel_path : text) (st : store) : store :=
  let clean_rel_path := strip rel_path in
  if text_eqb clean_rel_path []
     || negb (Helpers.ends_with (txt ".csv") (lower clean_rel_path))
  then st
  else
    match _tabular_cache_paths workbench_id clean_rel_path with
    | Raise _ => st
    | Ok paths =>
      match st !! paths with
      | Some w => <[paths := _tabular_remove_cache_files r w]> st
      | None => st
      end
    end.

End Keys.

End Store.

(** * Properties *)

(** ** Vocabulary of the statements *)

Module Vocabulary.
Import Chunks.

(** [covers size idx lo hi l]: the chunks of [l] are numbered from [idx]
    and cut the rows [lo..hi] into consecutive ranges of at most [size]
    rows. *)
Inductive covers (size : Z) : Z -> Z -> Z -> list chunk -> Prop :=
  | covers_nil idx lo : covers size idx lo (lo - 1) []
  | covers_cons idx lo hi c l :
      index c = idx ->
      first_row c = lo ->
      lo <= last_row c ->
      last_row c - lo + 1 <= size ->
      covers size (idx + 1) (last_row c + 1) hi l ->
      covers size idx lo hi (c :: l).

(** The words of the type table, as the design document groups them. *)
Definition integral_family : list string :=
  ["TINYINT"; "SMALLINT"; "INTEGER"; "INT"; "BIGINT"; "HUGEINT"]%string.

Definition unsigned_variant (w : string) : string := ("U" ++ w)%string.

(** A tag of the integral family or the unsigned variant of one. *)
Definition integral_or_unsigned (tag : string) : Prop :=
  In tag integral_family \/ exists w, In w integral_family /\ tag = unsigned_variant w.

(** The integral tags that the table of the worker holds. *)
Definition integral_tag (t : text) : Prop :=
  exists w, In w ["TINYINT"; "SMALLINT"; "INTEGER"; "INT"; "BIGINT"; "HUGEINT";
                  "UTINYINT"; "USMALLINT"; "UINTEGER"; "UBIGINT"]%string
            /\ t = txt w.

(** [w] occurs in [t]. *)
Definition occurs (w : string) (t : text) : Prop :=
  exists pre suf, t = pre ++ txt w ++ suf.

Definition float_tag (t : text) : Prop :=
  occurs "DECIMAL" t \/ occurs "NUMERIC" t \/ occurs "DOUBLE" t
  \/ occurs "FLOAT" t \/ occurs "REAL" t.

Definition boolean_tag (t : text) : Prop := t = txt "BOOLEAN" \/ t = txt "BOOL".

Definition date_tag (t : text) : Prop := occurs "DATE" t \/ occurs "TIME" t.

(** The copy of the query that the keyword scan reads (before it is put in
    lower case): literals and comments taken out, white space and the one
    final semicolon trimmed. *)
Definition scanning_copy (raw : text) : text :=
  let checked := strip (Validator._tabular_strip_sql_literals_and_comments (strip raw)) in
  if count ";" checked =? 1 then strip (drop_last checked) else checked.

(** The text that the validator hands back when it accepts. *)
Definition returned_text (raw : text) : text :=
  let query := strip raw in
  let checked := strip (Validator._tabular_strip_sql_literals_and_comments query) in
  if count ";" checked =? 1 then strip (drop_last (rstrip query)) else query.

(** The messages of the steps that come before the keyword scan. *)
Definition earlier_messages : list string :=
  [ "missing query"; "invalid query"; "query must be a single statement";
    "query must end with ';'"; "only SELECT/CTE queries are allowed" ]%string.

(** The validator gets as far as the keyword scan. *)
Definition passes_earlier_steps (raw : text) : Prop :=
  (forall m, In m earlier_messages ->
     Validator._tabular_validate_query (Some raw)
     <> Raise (WorkerError VALIDATION_FAILED m))
  /\ Validator._tabular_validate_query (Some raw) <> Raise (OtherError "IndexError").

(** The scanning copy before the final semicolon is trimmed. *)
Definition untrimmed_copy (raw : text) : text :=
  strip (Validator._tabular_strip_sql_literals_and_comments (strip raw)).

(** The places, in the query without its surrounding white space, of the
    semicolons that reach the scanning copy. *)
Definition semicolon_origins (raw : text) : list nat :=
  map fst (List.filter (fun p => chr_eqb (snd p) ";")
             (Validator.strip_loop_at 0 Validator.normal (strip raw))).

(** The place of the last character that is not white space. *)
Definition last_place (t : text) : nat := pred (length (rstrip t)).

(** The inside of a quoted literal: characters other than the quote, and
    doubled quotes. *)
Inductive quoted_body (q : ascii) : text -> Prop :=
  | quoted_nil : quoted_body q []
  | quoted_char c b : c <> q -> quoted_body q b -> quoted_body q (c :: b)
  | quoted_escape b : quoted_body q b -> quoted_body q (q :: q :: b).

Definition dangerous_word (token : text) : Prop :=
  exists w, In w Validator._DANGEROUS_KEYWORDS /\ token = txt w.

Definition identifier_context (token : text) : Prop :=
  exists w, In w Validator._IDENT_CONTEXT_TOKENS /\ token = txt w.

(** The text that the splitter has read since the last part it gave out. *)
Definition mode_text (m : Validator.split_mode) : text :=
  match m with
  | Validator.in_piece p => rev p
  | Validator.in_space w => rev w
  end.

(** A character that is neither white space nor one of the punctuation
    characters of the splitter. *)
Definition word_char (c : ascii) : Prop :=
  is_space c = false /\ Validator.is_split_punct c = false.

(** What a part of the splitter can be: a run of word characters (possibly
    empty), a run of white space, or one punctuation character. *)
Definition part_shape (t : text) : Prop :=
  (forall c, In c t -> word_char c)
  \/ (forall c, In c t -> is_space c = true)
  \/ exists c, t = [c] /\ is_space c = false /\ Validator.is_split_punct c = true.

Definition mode_shape (m : Validator.split_mode) : Prop :=
  match m with
  | Validator.in_piece p => forall c, In c p -> word_char c
  | Validator.in_space w => forall c, In c w -> is_space c = true
  end.

(** The function names that the path pattern lists as they are. *)
Definition listed_path_functions : list string :=
  ["glob"; "open_url"; "httpfs"; "read_csv"; "read_parquet"; "read_json"]%string.

(** The last character of [pre], if any, is no word character. *)
Definition ends_outside_word (pre : text) : Prop :=
  match last pre with
  | Some c => is_word c = false
  | None => True
  end.

(** The replacement that the sheet-name normalizer applies to a character. *)
Definition sheet_char (c : ascii) : ascii :=
  if Sql.is_sheet_forbidden c then "_"%char else c.

End Vocabulary.


(** The metadata that a call of [_tabular_ensure_cache] returned. *)
Definition metadata_of (r : result Cache.cache * Cache.world)
  : option (gmap string Cache.pyval) :=
  match fst r with
  | Ok c => Some (Cache.metadata c)
  | Raise _ => None
  end.

(** [_tabular_ensure_cache] went through [_tabular_rebuild_cache]. *)
Definition rebuilt (src : Cache.source_ref) (w : Cache.world) : Prop :=
  Cache.rebuilds (snd (Cache._tabular_ensure_cache src w)) = S (Cache.rebuilds w).

(** A metadata record as a worker writes it.  [_tabular_rebuild_cache] is
    the only writer of the record, and it writes what [build_metadata]
    lays out; [v] is the schema version of the worker that wrote the record,
    [TABULAR_CACHE_VERSION] for this one. *)
Definition written_record (v : Z) (src : Cache.source_ref) (source_sig : Cache.signature)
    (i : Cache.ingested) : gmap string Cache.pyval :=
  <["version"%string := Cache.PInt v]> (Cache.build_metadata src source_sig i).

(** ** Concrete inputs used by the statements below *)

Module Examples.
Import Supervisor Engine.

Definition select_all : text := txt "SELECT * FROM data".

Definition raising_operation (s : unit) : result Z * unit :=
  (Raise (OtherError "interrupted"), s).

(** A cursor that hands out one row and then raises, as an interrupted
    query does. *)
Definition interrupted_connection : Exporter.connection :=
  {| Exporter.execute := fun _ =>
       Ok {| Exporter.c_description := [("a"%string, "BIGINT"%string)];
             Exporter.c_batches := [Ok [[v_int 1]]; Raise (OtherError "interrupted")] |};
     Exporter.caps := {| has_interrupt := true |} |}.

(** A cursor that hands out its only row. *)
Definition one_row_connection : Exporter.connection :=
  {| Exporter.execute := fun _ =>
       Ok {| Exporter.c_description := [("a"%string, "BIGINT"%string)];
             Exporter.c_batches := [Ok [[v_int 1]]] |};
     Exporter.caps := {| has_interrupt := true |} |}.

Definition one_old_file : gmap string Exporter.file :=
  {[ "out.csv"%string := Exporter.csv_file [["old"%string]] ]}.

Definition one_old_book : gmap string Exporter.file :=
  {[ "out.xlsx"%string :=
       Exporter.workbook_file {| Exporter.title := "Old"; Exporter.cells := [] |} ]}.

Definition five_rows : relation :=
  {| description := [("a"%string, "BIGINT"%string)];
     tuples := map (fun n => [v_int (Z.of_nat n)]) (seq 0 5) |}.

Definition five_rows_connection : Executor.connection :=
  {| Executor.run_query := fun _ => Ok five_rows;
     Executor.caps := {| has_interrupt := true |} |}.

Import Cache.

Definition sample_signature : signature :=
  {| size_bytes := 10; mtime_ns := 77; sha256 := [xa; x1; x0; xf] |}.

Definition sample_ref : source_ref :=
  {| workbench_id := "wb"; root := "draft"; rel_path := "a.csv";
     source_path := "/workbenches/wb/draft/a.csv" |}.

Definition sample_ingested : ingested :=
  {| encoding := "utf-8";
     confidence := {| repr := "1.0"; exact := Some 1%Q |};
     sniff := {| delimiter := ","; quote_char := "'"; has_header := true |};
     row_count := 3;
     table_info := [("a"%string, "BIGINT"%string)] |}.

Definition sample_source : source_file :=
  {| signature_of := sample_signature; ingest_of := loads sample_ingested |}.

(** No cache yet. *)
Definition cold_world : world :=
  {| source := sample_source; meta_file := None; db_file := false; wal_file := false;
     rebuilds := 0; ingestions := 0 |}.

(** The cache of the sample source as a rebuild leaves it. *)
Definition warm_world : world :=
  {| source := sample_source;
     meta_file := Some (parsed (PDict
                    (build_metadata sample_ref sample_signature sample_ingested)));
     db_file := true; wal_file := false; rebuilds := 1; ingestions := 1 |}.

End Examples.

(** ** More concrete inputs *)

Module MoreExamples.
Import Cache Examples.

(** The sample source after an edit: one more byte, a later modification
    time, another digest. *)
Definition edited_source : source_file :=
  {| signature_of := {| size_bytes := 11; mtime_ns := 78; sha256 := [xb; x2; x0; xf] |};
     ingest_of := loads sample_ingested |}.

(** A source whose name differs from the name of the sample in case only. *)
Definition shouting_ref : source_ref :=
  {| workbench_id := "wb"; root := "draft"; rel_path := "A.csv";
     source_path := "/workbenches/wb/draft/A.csv" |}.

(** A stand-in for the digest of a path, and the cache directory of a
    workbench. *)
Definition sample_digest (t : text) : string := str t.

Definition sample_dir (workbench_id : string) : result string :=
  Ok (String.append "/w/" (String.append workbench_id "/meta/tabular")).

Definition sample_paths : string * string :=
  ("/w/wb/meta/tabular/a.csv.duckdb"%string, "/w/wb/meta/tabular/a.csv.meta.json"%string).

End MoreExamples.

(** ** The validator on the six cases of the design document *)

Module ValidatorCases.
Import Validator.

Local Open Scope string_scope.

(** C1.  The validator accepts "SELECT 1"; rejects the two-statement text as
    not a single statement; rejects "DROP TABLE data" because its first word
    is neither select nor with; accepts "SELECT Comment FROM data"; rejects
    the call of read_csv as a path-reading function; accepts "SELECT 1;" and
    returns it without the final semicolon. *)
Theorem validate_literal_cases :
  validate "SELECT 1" = Ok "SELECT 1"
  /\ validate "SELECT * FROM data; DROP TABLE data"
     = Raise (WorkerError VALIDATION_FAILED "query must be a single statement")
  /\ validate "DROP TABLE data"
     = Raise (WorkerError VALIDATION_FAILED "only SELECT/CTE queries are allowed")
  /\ validate "SELECT Comment FROM data" = Ok "SELECT Comment FROM data"
  /\ validate "SELECT * FROM read_csv('x.csv')"
     = Raise (WorkerError VALIDATION_FAILED "path-reading functions are not allowed")
  /\ validate "SELECT 1;" = Ok "SELECT 1".
Proof. repeat split; vm_compute; reflexivity. Qed.

End ValidatorCases.

(** ** The chunk list partitions the rows *)

Module ChunkFacts.
Import Chunks Vocabulary.

Lemma chunks_loop_covers size total :
  1 <= size ->
  forall fuel start idx,
    1 <= start -> start <= total + 1 ->
    (Z.to_nat (total + 1 - start) < fuel)%nat ->
    exists l, chunks_loop fuel total size start idx = Some l
              /\ covers size idx start total l.
Proof.
  intros Hsize fuel.
  induction fuel as [|fuel IH]; intros start idx Hlo Hhi Hfuel; [lia|].
  cbn [chunks_loop].
  destruct (Z.leb_spec start total) as [Hle|Hgt].
  - pose proof (Z.min_spec (start + size - 1) total) as He.
    remember (Z.min (start + size - 1) total) as e eqn:Ee.
    destruct (IH (e + 1) (idx + 1)) as (l & Hl & Hc); [lia | lia | lia |].
    rewrite Hl. eexists; split; [reflexivity|].
    apply covers_cons; cbn [index first_row last_row];
      [reflexivity | reflexivity | lia | lia | exact Hc].
  - exists []. split; [reflexivity|].
    replace total with (start - 1) by lia. constructor.
Qed.

Lemma covers_index size idx lo hi l :
  covers size idx lo hi l ->
  forall i c, l !! i = Some c -> index c = idx + Z.of_nat i.
Proof.
  induction 1 as [|idx lo hi c l Hi Hf Hl Hs Hc IH]; intros i d Hd; [done|].
  destruct i as [|i]; cbn in Hd.
  - injection Hd as <-. lia.
  - rewrite (IH _ _ Hd). lia.
Qed.

Lemma covers_range size idx lo hi l :
  covers size idx lo hi l ->
  forall i c, l !! i = Some c ->
    first_row c <= last_row c /\ last_row c - first_row c + 1 <= size.
Proof.
  induction 1 as [|idx lo hi c l Hi Hf Hl Hs Hc IH]; intros i d Hd; [done|].
  destruct i as [|i]; cbn in Hd.
  - injection Hd as <-. lia.
  - exact (IH _ _ Hd).
Qed.

Lemma covers_head size idx lo hi l c :
  covers size idx lo hi l -> l !! 0%nat = Some c -> first_row c = lo.
Proof. destruct 1; cbn; [done|]. intros [= <-]. assumption. Qed.

Lemma covers_next size idx lo hi l :
  covers size idx lo hi l ->
  forall i c d, l !! i = Some c -> l !! S i = Some d ->
    first_row d = last_row c + 1.
Proof.
  induction 1 as [|idx lo hi c l Hi Hf Hl Hs Hc IH]; intros i a b Ha Hb; [done|].
  destruct i as [|i]; cbn in Ha, Hb.
  - injection Ha as <-. exact (covers_head _ _ _ _ _ _ Hc Hb).
  - exact (IH _ _ _ Ha Hb).
Qed.

Lemma covers_bounds size idx lo hi l :
  covers size idx lo hi l -> lo - 1 <= hi.
Proof. induction 1; lia. Qed.

Lemma covers_last size idx lo hi l :
  covers size idx lo hi l -> lo <= hi ->
  exists c, last l = Some c /\ last_row c = hi.
Proof.
  induction 1 as [|idx lo hi c l Hi Hf Hl Hs Hc IH]; intros Hle; [lia|].
  pose proof (covers_bounds _ _ _ _ _ Hc) as Hb.
  destruct l as [|c' l'].
  - inversion Hc; subst. exists c. split; [reflexivity | lia].
  - destruct IH as (d & Hd & Hr).
    + inversion Hc as [|? ? ? ? ? ? ? ? ? Hc']; subst.
      pose proof (covers_bounds _ _ _ _ _ Hc'). lia.
    + exists d. split; [|exact Hr]. rewrite last_cons, Hd. reflexivity.
Qed.

(** C10.  For a positive row count [N] and the chunk size 100 the chunk
    list is computed, its indices count up from 0, the first range starts at
    row 1, every range holds between 1 and 100 rows, each range starts right
    after the one before it, and the last range ends at row [N]; for a row
    count of zero or less the list is empty. *)
Theorem chunks_partition_rows (N : Z) :
  (N <= 0 -> _tabular_chunks N TABULAR_CHUNK_ROWS = Some [])
  /\ (0 < N ->
      exists l, _tabular_chunks N TABULAR_CHUNK_ROWS = Some l
        /\ (forall i c, l !! i = Some c -> index c = Z.of_nat i)
        /\ (exists c, l !! 0%nat = Some c /\ first_row c = 1)
        /\ (forall i c, l !! i = Some c ->
              first_row c <= last_row c /\ last_row c - first_row c + 1 <= 100)
        /\ (forall i c d, l !! i = Some c -> l !! S i = Some d ->
              first_row d = last_row c + 1)
        /\ (exists c, last l = Some c /\ last_row c = N)).
Proof.
  split; intros HN; unfold _tabular_chunks.
  - destruct (Z.leb_spec N 0); [reflexivity | lia].
  - destruct (Z.leb_spec N 0); [lia|].
    destruct (chunks_loop_covers TABULAR_CHUNK_ROWS N ltac:(done)
                (S (Z.to_nat N)) 1 0) as (l & Hl & Hc); [lia | lia | lia |].
    exists l. split; [exact Hl|].
    destruct (covers_last _ _ _ _ _ Hc ltac:(lia)) as (cl & Hcl & Hend).
    split; [|split; [|split; [|split]]].
    + intros i c Hi. rewrite (covers_index _ _ _ _ _ Hc _ _ Hi). lia.
    + destruct l as [|c0 l']; [discriminate|].
      exists c0. split; [reflexivity|]. exact (covers_head _ _ _ _ _ _ Hc eq_refl).
    + intros i c Hi. exact (covers_range _ _ _ _ _ Hc _ _ Hi).
    + intros i c d. exact (covers_next _ _ _ _ _ Hc i c d).
    + exists cl. split; [exact Hcl | exact Hend].
Qed.

Lemma chunks_partition_rows_witness :
  _tabular_chunks 0 TABULAR_CHUNK_ROWS = Some []
  /\ exists l, _tabular_chunks 250 TABULAR_CHUNK_ROWS = Some l
       /\ exists c, last l = Some c /\ last_row c = 250.
Proof.
  split.
  - apply (proj1 (chunks_partition_rows 0)). lia.
  - destruct (proj2 (chunks_partition_rows 250) ltac:(lia))
      as (l & Hl & _ & _ & _ & _ & Hlast).
    exists l. split; [exact Hl | exact Hlast].
Defined.

End ChunkFacts.

(** ** The table of inferred types *)

Module TextFacts.

Lemma chr_eqb_eq a b : chr_eqb a b = true <-> a = b.
Proof. apply Ascii.eqb_eq. Qed.

Lemma chr_eqb_refl a : chr_eqb a a = true.
Proof. apply Ascii.eqb_refl. Qed.

Lemma text_eqb_eq a : forall b, text_eqb a b = true <-> a = b.
Proof.
  induction a as [|x a IH]; intros [|y b]; cbn; split; try done.
  - intros [Hx Hab]%andb_prop. apply chr_eqb_eq in Hx. apply IH in Hab. congruence.
  - intros [= -> ->]. rewrite chr_eqb_refl. cbn. apply IH. reflexivity.
Qed.

Lemma text_eqb_refl a : text_eqb a a = true.
Proof. apply text_eqb_eq. reflexivity. Qed.

Lemma starts_with_app p : forall t, starts_with p t = true <-> exists suf, t = p ++ suf.
Proof.
  induction p as [|x p IH]; intros t; cbn.
  - split; [intros _; exists t; reflexivity | done].
  - destruct t as [|y t]; split.
    + done.
    + intros [suf [=]].
    + intros [Hx Hp]%andb_prop. apply chr_eqb_eq in Hx. apply IH in Hp as [suf ->].
      exists suf. congruence.
    + intros [suf [= -> ->]]. rewrite chr_eqb_refl. cbn. apply IH. eauto.
Qed.

Lemma contains_app p : forall t,
  contains p t = true <-> exists pre suf, t = pre ++ p ++ suf.
Proof.
  induction t as [|y t IH].
  - cbn [contains]. rewrite orb_false_r, starts_with_app. split.
    + intros [suf ->]. exists [], suf. reflexivity.
    + intros (pre & suf & H). destruct pre; [exists suf; exact H|discriminate].
  - cbn [contains]. rewrite orb_true_iff, starts_with_app, IH. split.
    + intros [[suf ->]|(pre & suf & ->)].
      * exists [], suf. reflexivity.
      * exists (y :: pre), suf. reflexivity.
    + intros (pre & suf & H). destruct pre as [|z pre].
      * left. exists suf. exact H.
      * right. injection H as -> ->. eauto.
Qed.

Lemma member_In x ws : member x ws = true <-> exists w, In w ws /\ x = txt w.
Proof.
  unfold member. rewrite existsb_exists. split.
  - intros (w & Hw & He). apply text_eqb_eq in He. eauto.
  - intros (w & Hw & ->). exists w. split; [exact Hw | apply text_eqb_refl].
Qed.

End TextFacts.

Module ColumnTypeFacts.
Import ColumnTypes Vocabulary TextFacts.

Local Open Scope string_scope.

Lemma contains_occurs w t : contains (txt w) t = true <-> occurs w t.
Proof. apply contains_app. Qed.

Lemma is_integral t : member t integer_types = true <-> integral_tag t.
Proof. apply member_In. Qed.

Lemma is_float t :
  contains_any ["DECIMAL"; "NUMERIC"; "DOUBLE"; "FLOAT"; "REAL"] t = true <-> float_tag t.
Proof.
  unfold contains_any, float_tag. cbn [existsb].
  rewrite !orb_true_iff, !contains_occurs. intuition discriminate.
Qed.

Lemma is_boolean t : member t ["BOOLEAN"; "BOOL"] = true <-> boolean_tag t.
Proof.
  unfold member, boolean_tag. cbn [existsb].
  rewrite !orb_true_iff, !text_eqb_eq. intuition discriminate.
Qed.

Lemma is_date t : contains_any ["DATE"; "TIME"] t = true <-> date_tag t.
Proof.
  unfold contains_any, date_tag. cbn [existsb].
  rewrite !orb_true_iff, !contains_occurs. intuition discriminate.
Qed.

Lemma empty_tag_in_no_class t :
  t = [] -> ~ integral_tag t /\ ~ float_tag t /\ ~ boolean_tag t /\ ~ date_tag t.
Proof.
  intros ->. rewrite <- is_integral, <- is_float, <- is_boolean, <- is_date.
  repeat split; vm_compute; discriminate.
Qed.

(** C9, as the type table of the worker has it.  With [t] the tag without
    surrounding white space and in capitals: the ten integral tags of the
    table (TINYINT, SMALLINT, INTEGER, INT, BIGINT, HUGEINT, UTINYINT,
    USMALLINT, UINTEGER, UBIGINT) give integer; any other tag in which
    DECIMAL, NUMERIC, DOUBLE, FLOAT or REAL occurs gives float; otherwise
    BOOLEAN and BOOL give boolean; otherwise a tag in which DATE or TIME
    occurs gives date; every remaining tag, the empty one included, gives
    string. *)
Theorem inferred_type_table (tag : text) :
  let t := upper (strip tag) in
  let r := _tabular_inferred_type tag in
  (integral_tag t -> r = "integer")
  /\ (~ integral_tag t -> float_tag t -> r = "float")
  /\ (~ integral_tag t -> ~ float_tag t -> boolean_tag t -> r = "boolean")
  /\ (~ integral_tag t -> ~ float_tag t -> ~ boolean_tag t -> date_tag t -> r = "date")
  /\ (~ integral_tag t -> ~ float_tag t -> ~ boolean_tag t -> ~ date_tag t ->
      r = "string").
Proof.
  intros t r. subst r. unfold _tabular_inferred_type. fold t.
  destruct (text_eqb t []) eqn:He.
  - apply text_eqb_eq in He.
    destruct (empty_tag_in_no_class t He) as (Hi & Hf & Hb & Hd).
    repeat split; intros; first [contradiction | reflexivity].
  - pose proof (is_integral t) as Hi. pose proof (is_float t) as Hf.
    pose proof (is_boolean t) as Hb. pose proof (is_date t) as Hd.
    destruct (member t integer_types);
      [repeat split; intros; first [reflexivity | exfalso; intuition congruence]|].
    destruct (contains_any ["DECIMAL"; "NUMERIC"; "DOUBLE"; "FLOAT"; "REAL"] t);
      [repeat split; intros; first [reflexivity | exfalso; intuition congruence]|].
    destruct (member t ["BOOLEAN"; "BOOL"]);
      [repeat split; intros; first [reflexivity | exfalso; intuition congruence]|].
    destruct (contains_any ["DATE"; "TIME"] t);
      [repeat split; intros; first [reflexivity | exfalso; intuition congruence]|].
    destruct (contains_any ["CHAR"; "TEXT"; "STRING"; "VARCHAR"; "UUID"; "JSON"] t);
      repeat split; intros; first [reflexivity | exfalso; intuition congruence].
Qed.

Lemma inferred_type_table_witness :
  _tabular_inferred_type (txt " bigint ") = "integer"
  /\ _tabular_inferred_type (txt "DECIMAL(18,3)") = "float"
  /\ _tabular_inferred_type (txt "Boolean") = "boolean"
  /\ _tabular_inferred_type (txt "TIMESTAMP WITH TIME ZONE") = "date"
  /\ _tabular_inferred_type (txt "VARCHAR") = "string".
Proof.
  split; [|split; [|split; [|split]]].
  - apply (proj1 (inferred_type_table (txt " bigint "))).
    apply is_integral. vm_compute. reflexivity.
  - apply (proj1 (proj2 (inferred_type_table (txt "DECIMAL(18,3)")))).
    + rewrite <- is_integral. vm_compute. discriminate.
    + apply is_float. vm_compute. reflexivity.
  - apply (proj1 (proj2 (proj2 (inferred_type_table (txt "Boolean"))))).
    + rewrite <- is_integral. vm_compute. discriminate.
    + rewrite <- is_float. vm_compute. discriminate.
    + apply is_boolean. vm_compute. reflexivity.
  - apply (proj1 (proj2 (proj2 (proj2
             (inferred_type_table (txt "TIMESTAMP WITH TIME ZONE")))))).
    + rewrite <- is_integral. vm_compute. discriminate.
    + rewrite <- is_float. vm_compute. discriminate.
    + rewrite <- is_boolean. vm_compute. discriminate.
    + apply is_date. vm_compute. reflexivity.
  - apply (proj2 (proj2 (proj2 (proj2 (inferred_type_table (txt "VARCHAR")))))).
    + rewrite <- is_integral. vm_compute. discriminate.
    + rewrite <- is_float. vm_compute. discriminate.
    + rewrite <- is_boolean. vm_compute. discriminate.
    + rewrite <- is_date. vm_compute. discriminate.
Defined.

(** The unsigned variant of HUGEINT is not in the table: its inferred type
    is string, so not every unsigned variant of an integral tag gives
    integer. *)
Lemma unsigned_hugeint_not_integer :
  ~ (forall tag, integral_or_unsigned tag ->
       _tabular_inferred_type (txt tag) = "integer").
Proof.
  intros H. specialize (H "UHUGEINT").
  assert (Hs : _tabular_inferred_type (txt "UHUGEINT") = "string")
    by (vm_compute; reflexivity).
  rewrite Hs in H.
  assert (Hc : "string" = "integer"); [|discriminate Hc].
  apply H. right. exists "HUGEINT". split; [|reflexivity].
  cbn. tauto.
Qed.

End ColumnTypeFacts.

(** ** The cancellation supervisor *)

Module SupervisorFacts.
Import Supervisor Engine Exporter Examples.

Local Open Scope string_scope.

(** C8, with the error class the caller asks for.  For a positive timeout
    [T]: when the operation raises and the timeout flag is set, the error is
    a worker error of the caller's error code (FILE_READ_FAILED when the
    caller gives none, as the query paths do; the export writers give
    FILE_WRITE_FAILED) whose message is "query timed out after Tms"; when
    the operation raises and the flag is not set, its exception goes on
    unchanged; when the operation returns, its result is returned unchanged,
    the event is set and the timer is cancelled.  The state the operation
    leaves is kept in every case. *)
Theorem supervisor_outcomes {S A : Type} (conn : connection_caps)
    (operation : S -> result A * S) (timeout_ms : option Z) (code : error_code)
    (configured : Z) (fired : bool) (s : S) :
  let T := match timeout_ms with Some t => t | None => configured end in
  let run := _tabular_run_with_timeout conn operation timeout_ms code configured fired s in
  0 < T ->
  (forall e, fst (operation s) = Raise e -> fired = true ->
     outcome (fst run)
     = Raise (WorkerError code ("query timed out after " ++ str_of_int T ++ "ms")))
  /\ (forall e, fst (operation s) = Raise e -> fired = false ->
        outcome (fst run) = Raise e)
  /\ (forall v, fst (operation s) = Ok v ->
        outcome (fst run) = Ok v
        /\ done_set (fst run) = true /\ timer_cancelled (fst run) = true)
  /\ timed_out (fst run) = fired
  /\ snd run = snd (operation s).
Proof.
  intros T run HT. subst run. unfold _tabular_run_with_timeout. fold T.
  destruct (Z.leb_spec T 0) as [Hle|_]; [lia|].
  cbn [fst snd outcome done_set timer_cancelled timed_out].
  split; [|split; [|split; [|split]]].
  - intros e -> ->. reflexivity.
  - intros e -> ->. reflexivity.
  - intros v ->. auto.
  - reflexivity.
  - reflexivity.
Qed.

(** A call that returns is not changed by the supervisor, whatever the
    timeout is. *)
Lemma supervised_return {S A : Type} (conn : connection_caps)
    (operation : S -> result A * S) timeout_ms code configured fired s v s' :
  operation s = (Ok v, s') ->
  let run := _tabular_run_with_timeout conn operation timeout_ms code configured fired s in
  outcome (fst run) = Ok v /\ snd run = s'.
Proof.
  intros Hop run. subst run. unfold _tabular_run_with_timeout.
  destruct (Z.leb _ 0); rewrite Hop; split; reflexivity.
Qed.

Lemma supervisor_outcomes_witness :
  outcome (fst (_tabular_run_with_timeout {| has_interrupt := true |}
                  raising_operation None FILE_READ_FAILED 5000 true tt))
  = Raise (WorkerError FILE_READ_FAILED "query timed out after 5000ms").
Proof.
  apply (proj1 (supervisor_outcomes {| has_interrupt := true |} raising_operation
                  None FILE_READ_FAILED 5000 true tt ltac:(lia))
           (OtherError "interrupted")); reflexivity.
Defined.

(** The CSV writer runs under the supervisor with the write-failure code:
    when its query is interrupted after the timer fired, the error that
    surfaces names the timeout but is of the write-failure class, not of the
    read-failure class. *)
Lemma export_timeout_is_write_failure :
  let run := _tabular_export_csv interrupted_connection (txt "SELECT * FROM data")
               "out.csv" 5000 true one_old_file in
  fst (export_csv_operation interrupted_connection (txt "SELECT * FROM data")
         "out.csv" one_old_file) = Raise (OtherError "interrupted")
  /\ timed_out (fst run) = true
  /\ outcome (fst run)
     = Raise (WorkerError FILE_WRITE_FAILED "query timed out after 5000ms")
  /\ outcome (fst run)
     <> Raise (WorkerError FILE_READ_FAILED "query timed out after 5000ms").
Proof. repeat split; try (vm_compute; reflexivity). vm_compute. discriminate. Qed.

End SupervisorFacts.

(** ** Windows of a query and the total row count *)

Module ExecutorFacts.
Import Supervisor Engine Executor Examples.

Lemma select_all_valid : _tabular_validate_query (Some select_all) = Ok select_all.
Proof. vm_compute. reflexivity. Qed.

(** Taking the injected column off again: the rows are what they were, and
    the total is the one carried by the last row. *)
Lemma trim_rows_tagged (N : Z) (rs : list row) :
  forall total,
    trim_rows total (map (fun r => r ++ [v_int N]) rs)
    = Ok (rs, match rs with [] => total | _ => N end).
Proof.
  induction rs as [|r rs IH]; intros total; [reflexivity|].
  cbn [map trim_rows]. rewrite last_snoc. cbn [int_or_zero bind].
  rewrite IH. cbn [bind fst snd]. rewrite removelast_last.
  destruct rs; reflexivity.
Qed.

Lemma limit_offset_map {B} (f : row -> B) n k rs :
  take (Z.to_nat n) (drop (Z.to_nat k) (map f rs))
  = map f (take (Z.to_nat n) (drop (Z.to_nat k) rs)).
Proof. rewrite skipn_map, firstn_map. reflexivity. Qed.

Lemma limit_offset_length n k (rs : list row) :
  0 <= n -> 0 <= k ->
  Z.of_nat (length (limit_offset n k rs))
  = Z.min n (Z.max 0 (Z.of_nat (length rs) - k)).
Proof.
  intros Hn Hk. unfold limit_offset. rewrite length_take, length_drop. lia.
Qed.

Lemma read_window_select_all conn q n k log :
  run_query conn select_all = Ok q ->
  _read_window_with_total conn select_all n k log
  = (Ok {| w_rows := limit_offset n k (tuples q);
           w_columns := map fst (description q);
           w_column_types :=
             map (fun d => ColumnTypes._tabular_inferred_type (txt (snd d))) (description q);
           w_total := match limit_offset n k (tuples q) with
                      | [] => 0
                      | _ => Z.of_nat (length (tuples q))
                      end |},
     log ++ [windowed_statement select_all n k]).
Proof.
  intros Hq. unfold _read_window_with_total. rewrite Hq. cbn [bind].
  cbn [windowed_select description tuples].
  unfold limit_offset at 1. rewrite limit_offset_map. fold (limit_offset n k (tuples q)).
  rewrite trim_rows_tagged. cbn [bind fst snd]. rewrite removelast_last.
  destruct (description q ++ [(TABULAR_TOTAL_COUNT_COLUMN, "BIGINT"%string)]) eqn:Hd.
  - destruct (description q); discriminate.
  - reflexivity.
Qed.

Lemma count_rows_select_all conn q log :
  run_query conn select_all = Ok q ->
  _count_rows conn select_all log
  = (Ok (Z.of_nat (length (tuples q))), log ++ [count_statement select_all]).
Proof. intros Hq. unfold _count_rows. rewrite Hq. reflexivity. Qed.

(** C4.  For a cached table of [N] rows, the query SELECT * FROM data, a
    window of 100 rows and any window offset [k >= 0] (so for each of 0, N/2,
    N-1, N and N+50 that is an offset), the answer holds the rows
    [k .. k+99] of the table, which are min(100, max(0, N-k)) rows, and
    reports N as the total row count; when the window starts past the last
    row ([k > 0] and no row comes back) the total is read with a second,
    unwindowed count statement. *)
Theorem pagination_is_exact (configured : Z) (conn : connection) (table : relation)
    (k : Z) (fired1 fired2 : bool) :
  let N := Z.of_nat (length (tuples table)) in
  let params := {| p_query := Some select_all;
                   p_window_rows := Some 100;
                   p_window_offset := Some k |} in
  run_query conn select_all = Ok table ->
  0 <= k ->
  exists answer log,
    tabular_query configured conn params fired1 fired2 = (Ok answer, log)
    /\ rows answer = take 100 (drop (Z.to_nat k) (tuples table))
    /\ row_count answer = Z.of_nat (length (rows answer))
    /\ row_count answer = Z.min 100 (Z.max 0 (N - k))
    /\ total_row_count answer = N
    /\ (0 < k -> N <= k ->
        log = [windowed_statement select_all 100 k; count_statement select_all]).
Proof.
  intros N params Hq Hk.
  unfold tabular_query. cbn [p_query p_window_rows p_window_offset params].
  rewrite select_all_valid.
  cbn [_tabular_parse_positive_int _tabular_parse_non_negative_int].
  destruct (Z.ltb_spec k 0) as [Hneg|_]; [lia|].
  change (100 <=? 0) with false. cbv iota.
  pose proof (limit_offset_length 100 k (tuples table) ltac:(lia) Hk) as Hlen.
  fold N in Hlen.
  destruct (SupervisorFacts.supervised_return (caps conn)
              (_read_window_with_total conn select_all 100 k) None FILE_READ_FAILED
              configured fired1 [] _ _ (read_window_select_all conn table 100 k [] Hq))
    as [Hout1 Hlog1].
  rewrite Hout1, Hlog1. clear Hout1 Hlog1.
  cbn [w_rows w_total w_columns w_column_types app].
  destruct (limit_offset 100 k (tuples table)) as [|r rs] eqn:Hw;
    unfold limit_offset in Hw; change (Z.to_nat 100) with 100%nat in Hw.
  - cbn [length Nat.eqb andb]. cbn [length] in Hlen.
    destruct (Z.ltb_spec 0 k) as [Hpos|Hzero].
    + destruct (SupervisorFacts.supervised_return (caps conn)
                  (_count_rows conn select_all) None FILE_READ_FAILED configured fired2
                  _ _ _ (count_rows_select_all conn table
                           [windowed_statement select_all 100 k] Hq))
        as [Hout2 Hlog2].
      rewrite Hout2, Hlog2. cbn [fst snd app map].
      eexists _, _. split; [reflexivity|].
      cbn [rows row_count total_row_count length].
      split; [symmetry; exact Hw|]. split; [reflexivity|]. split; [lia|].
      split; [reflexivity|]. intros _ _. reflexivity.
    + cbn [fst snd map]. eexists _, _. split; [reflexivity|].
      cbn [rows row_count total_row_count length].
      split; [symmetry; exact Hw|]. split; [reflexivity|]. split; [lia|].
      split; [lia|]. intros Hpos. lia.
  - cbn [length Nat.eqb andb fst snd].
    eexists _, _. split; [reflexivity|].
    cbn [rows row_count total_row_count].
    assert (Hid : map (map _tabular_json_value) (r :: rs) = r :: rs).
    { unfold _tabular_json_value.
      rewrite (map_ext _ id) by (intros a; apply map_id). apply map_id. }
    rewrite Hid.
    split; [symmetry; exact Hw|]. split; [reflexivity|]. split; [exact Hlen|].
    split; [reflexivity|]. intros Hpos HNk. cbn [length] in Hlen. lia.
Qed.

Lemma pagination_is_exact_witness :
  exists answer log,
    tabular_query 5000 five_rows_connection
      {| p_query := Some select_all; p_window_rows := Some 100;
         p_window_offset := Some 55 |} false false = (Ok answer, log)
    /\ row_count answer = 0
    /\ total_row_count answer = 5
    /\ log = [windowed_statement select_all 100 55; count_statement select_all].
Proof.
  destruct (pagination_is_exact 5000 five_rows_connection five_rows 55 false false
              eq_refl ltac:(lia))
    as (answer & log & Hrun & _ & _ & Hcount & Htotal & Hlog).
  exists answer, log. split; [exact Hrun|]. split; [exact Hcount|].
  split; [exact Htotal|]. apply Hlog; cbn; lia.
Defined.

End ExecutorFacts.

(** ** What a failed write leaves at the target path *)

Module ExporterFacts.
Import Supervisor Engine Exporter Examples.

Local Open Scope string_scope.

(** The round-trip writer stages its output: with a temporary name that is
    not in use, a save or a rename that fails leaves every path as it was,
    the temporary file included, and surfaces a write failure; a save that
    succeeds changes the target path only. *)
Lemma atomic_save_all_or_nothing (wb : workbook) (target_path tmp_path : string)
    (how : save_outcome) (replace_ok : bool) (fs : gmap string file) :
  fs !! tmp_path = None ->
  tmp_path <> target_path ->
  let r := _xlsx_save_workbook_atomic wb target_path tmp_path how replace_ok fs in
  match fst r with
  | Ok _ => snd r = <[target_path := workbook_file wb]> fs
  | Raise e => snd r = fs /\ exists m, e = WorkerError FILE_WRITE_FAILED m
  end.
Proof.
  intros Hfresh Hne r. subst r. unfold _xlsx_save_workbook_atomic, wb_save.
  destruct how as [|e]; cbn [fst snd].
  - destruct replace_ok; cbn [fst snd].
    + rewrite delete_insert_ne by exact Hne.
      rewrite insert_insert_eq, delete_insert_id by exact Hfresh. reflexivity.
    + rewrite insert_insert_eq, delete_insert_id by exact Hfresh. eauto.
  - rewrite insert_insert_eq, delete_insert_id by exact Hfresh. eauto.
Qed.

(** C5 at a failing run.  The CSV writer opens the target itself: when the
    query is interrupted after the first row, the export fails with a write
    failure and the target, which held an older export, now holds the header
    and one row.  The spreadsheet writer saves to the target itself: when
    the save raises, the target holds a partial workbook.  The round-trip
    writer, in the same situation, leaves the old workbook in place. *)
Theorem export_failure_leaves_partial_target :
  let csv_run := tabular_export_write fmt_csv interrupted_connection select_all
                   "out.csv" "Sheet1" save_completes 5000 true one_old_file in
  let xlsx_run := tabular_export_write fmt_xlsx one_row_connection select_all
                    "out.xlsx" "Sheet1" (save_fails (OtherError "disk full"))
                    5000 false one_old_book in
  let staged_run := _xlsx_save_workbook_atomic {| title := "Sheet1"; cells := [] |}
                      "out.xlsx" ".keenbench-xlsx-1.tmp.xlsx"
                      (save_fails (OtherError "disk full")) true one_old_book in
  (one_old_file !! "out.csv" = Some (csv_file [["old"]])
   /\ fst csv_run = Raise (WorkerError FILE_WRITE_FAILED "query timed out after 5000ms")
   /\ snd csv_run !! "out.csv" = Some (csv_file [["a"]; ["1"]]))
  /\ (fst xlsx_run = Raise (WorkerError FILE_WRITE_FAILED "export failed: disk full")
      /\ snd xlsx_run !! "out.xlsx" = Some workbook_partial)
  /\ (fst staged_run
      = Raise (WorkerError FILE_WRITE_FAILED "failed to write xlsx: disk full")
      /\ snd staged_run = one_old_book).
Proof.
  cbv zeta. split; [|split].
  - repeat split; vm_compute; reflexivity.
  - split; vm_compute; reflexivity.
  - split; [vm_compute; reflexivity|].
    pose proof (atomic_save_all_or_nothing {| title := "Sheet1"; cells := [] |}
                  "out.xlsx" ".keenbench-xlsx-1.tmp.xlsx"
                  (save_fails (OtherError "disk full")) true one_old_book
                  ltac:(vm_compute; reflexivity) ltac:(discriminate)) as H.
    cbn [fst _xlsx_save_workbook_atomic wb_save] in H. apply H.
Qed.

End ExporterFacts.

(** ** When the cache is rebuilt *)

Module CacheFacts.
Import Cache Vocabulary Examples.

Local Open Scope string_scope.

Lemma rebuild_counts src source_sig w :
  rebuilds (snd (_tabular_rebuild_cache src source_sig w)) = S (rebuilds w).
Proof.
  unfold _tabular_rebuild_cache. cbn [source _tabular_remove_cache_files count_rebuild].
  destruct (ingest_of (source w)); reflexivity.
Qed.

(** The branch of [_tabular_ensure_cache]: the rebuild runs when no
    dictionary can be loaded or the freshness check fails, and in no other
    case; without a rebuild the loaded record is returned and no file
    changes. *)
Lemma ensure_cache_branch src w :
  match _tabular_load_metadata w with
  | Some d =>
    if _tabular_cache_is_fresh d (rel_path src) (signature_of (source w)) (db_file w)
    then _tabular_ensure_cache src w
         = (Ok {| metadata := d; cache_source := src |}, w)
    else rebuilt src w
  | None => rebuilt src w
  end.
Proof.
  unfold rebuilt, _tabular_ensure_cache, _tabular_source_signature.
  destruct (_tabular_load_metadata w) as [d|]; [|apply rebuild_counts].
  destruct (_tabular_cache_is_fresh _ _ _ _); [reflexivity | apply rebuild_counts].
Qed.


Lemma str_or_empty_str h : str_or_empty (PStr h) = Some h.
Proof.
  unfold str_or_empty, py_truthy. destruct (String.eqb_spec h "") as [->|]; reflexivity.
Qed.

(** The freshness check on a record whose entries have the types the worker
    writes. *)
Lemma fresh_typed d s rel source_sig db v p sz mt h :
  d !! "version" = Some (PInt v) ->
  d !! "source" = Some (PDict s) ->
  s !! "path" = Some (PStr p) ->
  s !! "size_bytes" = Some (PInt sz) ->
  s !! "mtime_ns" = Some (PInt mt) ->
  s !! "sha256" = Some (PStr h) ->
  _tabular_cache_is_fresh d rel source_sig db = true
  <-> v = TABULAR_CACHE_VERSION /\ p = rel
      /\ sz = size_bytes source_sig /\ mt = mtime_ns source_sig
      /\ h = hexdigest (sha256 source_sig)
      /\ db = true
      /\ exists l, d !! "columns" = Some (PList l).
Proof.
  intros Hv Hs Hp Hsz Hmt Hh.
  unfold _tabular_cache_is_fresh, get, get_or, digest_differs.
  rewrite Hv, Hs. cbn [from_option id is_dict py_eq_int].
  rewrite Hp, Hsz, Hmt, Hh. cbn [from_option id py_eq_str py_int].
  rewrite str_or_empty_str.
  destruct (Z.eqb_spec v TABULAR_CACHE_VERSION) as [->|Hne]; cbn [negb];
    [|split; [discriminate | intros (? & _); contradiction]].
  destruct (String.eqb_spec p rel) as [->|Hne]; cbn [negb];
    [|split; [discriminate | intros (_ & ? & _); contradiction]].
  destruct (Z.eqb_spec sz (size_bytes source_sig)) as [->|Hne]; cbn [negb];
    [|split; [discriminate | intros (_ & _ & ? & _); contradiction]].
  destruct (Z.eqb_spec mt (mtime_ns source_sig)) as [->|Hne]; cbn [negb];
    [|split; [discriminate | intros (_ & _ & _ & ? & _); contradiction]].
  destruct (String.eqb_spec h (hexdigest (sha256 source_sig))) as [->|Hne]; cbn [negb];
    [|split; [discriminate | intros (_ & _ & _ & _ & ? & _); contradiction]].
  destruct db; cbn [negb];
    [|split; [discriminate | intros (_ & _ & _ & _ & _ & ? & _); discriminate]].
  destruct (d !! "columns") as [[| | | | |l|]|] eqn:Hc; cbn [from_option id is_list negb];
    (split; [try discriminate; intros _; repeat split; eauto
            |try reflexivity; intros (_ & _ & _ & _ & _ & _ & l' & [=])]).
Qed.

(** ** Two calls in a row *)

(** The entries that the freshness check reads, in a record laid out as
    [build_metadata] lays it out. *)
Lemma metadata_entries (version src format delim quote header enc conf nrows ncols cols : pyval) :
  let d : gmap string pyval :=
    list_to_map
      [ ("version", version); ("source", src); ("format", format);
        ("delimiter", delim); ("quote_char", quote); ("has_header", header);
        ("encoding_detected", enc); ("encoding_confidence", conf);
        ("row_count", nrows); ("column_count", ncols); ("columns", cols) ] in
  d !! "version" = Some version /\ d !! "source" = Some src /\ d !! "columns" = Some cols.
Proof. vm_compute. auto. Qed.

Lemma source_entries (root path size mtime digest : pyval) :
  let s : gmap string pyval :=
    list_to_map
      [ ("root", root); ("path", path); ("size_bytes", size);
        ("mtime_ns", mtime); ("sha256", digest) ] in
  s !! "path" = Some path /\ s !! "size_bytes" = Some size
  /\ s !! "mtime_ns" = Some mtime /\ s !! "sha256" = Some digest.
Proof. vm_compute. auto. Qed.

Lemma fresh_after_build src source_sig i :
  _tabular_cache_is_fresh (build_metadata src source_sig i) (rel_path src) source_sig true
  = true.
Proof.
  unfold build_metadata.
  match goal with
  | |- _tabular_cache_is_fresh
         (list_to_map [(_, ?a); (_, PDict (list_to_map [(_, ?r); (_, ?p); (_, ?z); (_, ?m); (_, ?h)]));
                       (_, ?c); (_, ?d); (_, ?e); (_, ?f); (_, ?g); (_, ?k); (_, ?n);
                       (_, ?o); (_, ?q)]) _ _ _ = _ =>
    destruct (metadata_entries a
                (PDict (list_to_map [("root", r); ("path", p); ("size_bytes", z);
                                     ("mtime_ns", m); ("sha256", h)]))
                c d e f g k n o q) as (Hv & Hs & Hc);
    destruct (source_entries r p z m h) as (Hp & Hz & Hm & Hh)
  end.
  apply (fresh_typed _ _ _ _ _ _ _ _ _ _ Hv Hs Hp Hz Hm Hh).
  repeat split. eexists. exact Hc.
Qed.

(** ** When the cache is rebuilt *)




Lemma map_hex_char_injective (a b : list hexdigit) :
  map hex_char a = map hex_char b -> a = b.
Proof.
  revert b. induction a as [|x a IH]; intros [|y b]; cbn; try discriminate; auto.
  intros [= Hc Ht]. f_equal; [|apply IH; exact Ht].
  destruct x, y; solve [reflexivity | discriminate Hc].
Qed.

Lemma hexdigest_injective (a b : list hexdigit) : hexdigest a = hexdigest b -> a = b.
Proof.
  unfold hexdigest, str. intros H. apply map_hex_char_injective.
  rewrite <- (list_ascii_of_string_of_list_ascii (map hex_char a)),
          <- (list_ascii_of_string_of_list_ascii (map hex_char b)).
  rewrite H. reflexivity.
Qed.

(** A call of [_tabular_ensure_cache] leaves no metadata record or a record
    that a worker wrote, when it found the one or the other. *)
Lemma worker_states_closed src w :
  (_tabular_load_metadata w = None
   \/ exists v src0 sig0 i0,
        _tabular_load_metadata w = Some (written_record v src0 sig0 i0)) ->
  let w1 := snd (_tabular_ensure_cache src w) in
  _tabular_load_metadata w1 = None
  \/ exists v src0 sig0 i0,
       _tabular_load_metadata w1 = Some (written_record v src0 sig0 i0).
Proof.
  intros Hstate. cbv zeta.
  assert (Hbuild : forall source_sig,
    let w1 := snd (_tabular_rebuild_cache src source_sig w) in
    _tabular_load_metadata w1 = None
    \/ exists v src0 sig0 i0,
         _tabular_load_metadata w1 = Some (written_record v src0 sig0 i0)).
  { intros source_sig. cbv zeta. unfold _tabular_rebuild_cache.
    cbn [source _tabular_remove_cache_files count_rebuild].
    destruct (ingest_of (source w)) as [e|e|i]; cbn [snd]; [left; reflexivity ..|].
    right. exists TABULAR_CACHE_VERSION, src, source_sig, i.
    unfold _tabular_load_metadata. cbn [meta_file _tabular_write_metadata].
    f_equal. }
  unfold _tabular_ensure_cache, _tabular_source_signature.
  destruct (_tabular_load_metadata w) as [d|] eqn:Hload; [|apply Hbuild].
  destruct (_tabular_cache_is_fresh d _ _ _); [|apply Hbuild].
  cbn [snd]. rewrite Hload. exact Hstate.
Qed.



(** C7.  When a call of [ensure_cache] has returned, a second call made
    right after it, with the source file as it was, returns the same
    metadata (so the same bytes when written out) and leaves every cache
    file, the rebuild counter and the ingestion counter as the first call
    left them. *)
Theorem ensure_cache_idempotent (src : source_ref) (w w1 : world) (c1 : cache) :
  _tabular_ensure_cache src w = (Ok c1, w1) ->
  let second := _tabular_ensure_cache src w1 in
  source w1 = source w
  /\ fst second = Ok c1
  /\ metadata_of second = Some (metadata c1)
  /\ snd second = w1
  /\ rebuilds (snd second) = rebuilds w1
  /\ ingestions (snd second) = ingestions w1.
Proof.
  intros Hfirst.
  assert (Hsecond : source w1 = source w /\ _tabular_ensure_cache src w1 = (Ok c1, w1)).
  { revert Hfirst. unfold _tabular_ensure_cache at 1, _tabular_source_signature.
    destruct (_tabular_load_metadata w) as [d|] eqn:Hload.
    - destruct (_tabular_cache_is_fresh d _ _ _) eqn:Hfresh.
      + intros [= <- <-]. split; [reflexivity|].
        unfold _tabular_ensure_cache, _tabular_source_signature.
        rewrite Hload, Hfresh. reflexivity.
      + unfold _tabular_rebuild_cache.
        cbn [source _tabular_remove_cache_files count_rebuild].
        destruct (ingest_of (source w)) as [e|e|i] eqn:Hi; cbn [fst snd bind].
        * discriminate.
        * destruct e; discriminate.
        * intros [= <- <-]. split; [reflexivity|].
          unfold _tabular_ensure_cache, _tabular_source_signature, _tabular_load_metadata.
          cbn [meta_file _tabular_write_metadata open_and_load source db_file].
          rewrite fresh_after_build. reflexivity.
    - unfold _tabular_rebuild_cache.
      cbn [source _tabular_remove_cache_files count_rebuild].
      destruct (ingest_of (source w)) as [e|e|i] eqn:Hi; cbn [fst snd bind].
      + discriminate.
      + destruct e; discriminate.
      + intros [= <- <-]. split; [reflexivity|].
        unfold _tabular_ensure_cache, _tabular_source_signature, _tabular_load_metadata.
        cbn [meta_file _tabular_write_metadata open_and_load source db_file].
        rewrite fresh_after_build. reflexivity. }
  destruct Hsecond as [Hsrc Hsecond]. cbv zeta. unfold metadata_of.
  rewrite Hsecond. cbn [fst snd]. repeat split; assumption || reflexivity.
Qed.

Lemma ensure_cache_idempotent_witness :
  exists c1 w1,
    _tabular_ensure_cache sample_ref cold_world = (Ok c1, w1)
    /\ rebuilds w1 = 1%nat
    /\ fst (_tabular_ensure_cache sample_ref w1) = Ok c1
    /\ snd (_tabular_ensure_cache sample_ref w1) = w1.
Proof.
  eexists _, _. split; [reflexivity|]. split; [reflexivity|].
  pose proof (ensure_cache_idempotent sample_ref cold_world _ _ eq_refl)
    as (_ & Hres & _ & Hworld & _).
  split; [exact Hres | exact Hworld].
Defined.

End CacheFacts.

(** ** The keyword scan *)

Module ScanFacts.
Import Validator Vocabulary TextFacts.

Lemma is_dangerous_word token : is_dangerous token = true <-> dangerous_word token.
Proof. apply member_In. Qed.

Lemma is_identifier_context token :
  is_ident_context token = true <-> identifier_context token.
Proof. apply member_In. Qed.

Lemma not_identifier_context token :
  is_ident_context token = false <-> ~ identifier_context token.
Proof.
  rewrite <- is_identifier_context. destruct (is_ident_context token); split; congruence.
Qed.

Ltac split_tail H :=
  destruct H as [->|(c & r' & -> & Hc)];
  [ eexists; split; vm_compute; reflexivity
  | unfold tokenize, token_split; cbn [txt list_ascii_of_string app split_loop];
    cbn [is_space is_split_punct in_range code N_of_ascii N_of_digits existsb chr_eqb
         Ascii.eqb Bool.eqb andb orb N.leb N.eqb N.compare N.add N.mul Pos.compare
         Pos.compare_cont Pos.eqb Pos.add Pos.succ Pos.mul];
    rewrite Hc; cbn [rev app List.filter];
    eexists; split; [reflexivity | vm_compute; reflexivity] ].

(** The loop over the tokens: with a previous token [p], a keyword is
    reported exactly when some token of the closed set comes right after a
    token that is not an identifier context. *)
Lemma scan_after p tokens :
  is_Some (scan_tokens (Some p) tokens)
  <-> exists i a b, (p :: tokens) !! i = Some a /\ (p :: tokens) !! S i = Some b
                    /\ is_dangerous b = true /\ is_ident_context a = false.
Proof.
  revert p. induction tokens as [|t rest IH]; intros p; cbn [scan_tokens].
  - split; [intros [? [=]]|]. intros (i & a & b & _ & Hb & _).
    destruct i; discriminate Hb.
  - destruct (is_dangerous t) eqn:Hd.
    + destruct (is_ident_context p) eqn:Hc.
      * rewrite IH. split.
        -- intros (i & a & b & Ha & Hb & H). exists (S i), a, b. auto.
        -- intros (i & a & b & Ha & Hb & Hdb & Hca). destruct i as [|i].
           ++ cbn in Ha. injection Ha as <-. congruence.
           ++ exists i, a, b. auto.
      * split; [intros _|eauto]. exists 0%nat, p, t. auto.
    + rewrite IH. split.
      * intros (i & a & b & Ha & Hb & H). exists (S i), a, b. auto.
      * intros (i & a & b & Ha & Hb & Hdb & Hca). destruct i as [|i].
        -- cbn in Hb. injection Hb as <-. congruence.
        -- exists i, a, b. auto.
Qed.

(** Without a previous token the first token is reported when it is of the
    closed set. *)
Lemma scan_from_start tokens :
  is_Some (scan_tokens None tokens)
  <-> (exists t, head tokens = Some t /\ is_dangerous t = true)
      \/ exists i a b, tokens !! i = Some a /\ tokens !! S i = Some b
                       /\ is_dangerous b = true /\ is_ident_context a = false.
Proof.
  destruct tokens as [|t rest]; cbn [scan_tokens head].
  - split; [intros [? [=]]|]. intros [(t & [=] & _)|(i & a & b & Ha & _)].
    destruct i; discriminate Ha.
  - destruct (is_dangerous t) eqn:Hd.
    + split; [intros _; left; eauto | eauto].
    + rewrite scan_after. split; [auto|]. intros [(t' & [= <-] & Ht)|H]; [congruence|exact H].
Qed.

(** *** White space and the first word *)

Lemma lower_keeps_space c : is_space (lower_char c) = is_space c.
Proof. destruct c as [[] [] [] [] [] [] [] []]; reflexivity. Qed.

Lemma lstrip_snoc l c : is_space c = false -> lstrip (l ++ [c]) = lstrip l ++ [c].
Proof.
  intros Hc. induction l as [|x l IH]; cbn [lstrip app].
  - rewrite Hc. reflexivity.
  - destruct (is_space x); [exact IH | reflexivity].
Qed.

Lemma rstrip_cons c t : is_space c = false -> rstrip (c :: t) = c :: rstrip t.
Proof.
  intros Hc. unfold rstrip. cbn [rev]. rewrite lstrip_snoc by exact Hc.
  rewrite rev_app_distr. reflexivity.
Qed.

Lemma lstrip_head t :
  lstrip t = [] \/ exists c r, lstrip t = c :: r /\ is_space c = false.
Proof.
  induction t as [|x t IH]; cbn [lstrip]; [left; reflexivity|].
  destruct (is_space x) eqn:Hx; [exact IH | right; eauto].
Qed.

Lemma lstrip_fixed c r : is_space c = false -> lstrip (c :: r) = c :: r.
Proof. intros Hc. cbn [lstrip]. rewrite Hc. reflexivity. Qed.

(** A stripped text has no white space at its head. *)
Lemma lstrip_strip t : lstrip (strip t) = strip t.
Proof.
  unfold strip. destruct (lstrip_head t) as [->|(c & r & -> & Hc)]; [reflexivity|].
  rewrite rstrip_cons by exact Hc. apply lstrip_fixed. exact Hc.
Qed.

Lemma take_word_split t :
  exists r, t = take_word t ++ r
            /\ (r = [] \/ exists c r', r = c :: r' /\ is_space c = true).
Proof.
  induction t as [|x t (r & Ht & Hr)]; cbn [take_word].
  - exists []. auto.
  - destruct (is_space x) eqn:Hx.
    + exists (x :: t). split; [reflexivity|]. right. eauto.
    + exists r. split; [|exact Hr]. cbn [app]. rewrite <- Ht. reflexivity.
Qed.

Lemma first_word_stripped t w :
  lstrip t = t -> first_word t = Some w -> w = take_word t.
Proof.
  unfold first_word. intros ->. destruct t; [discriminate|]. intros [= <-]. reflexivity.
Qed.

(** The first token of the lowered text is its first word when that word
    is select or with. *)
Lemma first_token_is_first_word checked w :
  lstrip checked = checked ->
  first_word checked = Some w ->
  member (lower w) ["select"; "with"]%string = true ->
  exists rest, tokenize (lower checked) = lower w :: rest
               /\ is_dangerous (lower w) = false.
Proof.
  intros Hs Hw Hm. apply (first_word_stripped _ _ Hs) in Hw. subst w.
  destruct (take_word_split checked) as (r & Hsplit & Hr).
  assert (Hl : lower checked = lower (take_word checked) ++ lower r).
  { rewrite Hsplit at 1. unfold lower. apply map_app. }
  rewrite Hl. clear Hl Hsplit.
  assert (Hr' : lower r = [] \/ exists c r', lower r = c :: r' /\ is_space c = true).
  { destruct Hr as [->|(c & r' & -> & Hc)]; [left; reflexivity|].
    right. exists (lower_char c), (lower r'). split; [reflexivity|].
    rewrite lower_keeps_space. exact Hc. }
  clear Hr. revert Hm Hr'. generalize (lower r). generalize (lower (take_word checked)).
  intros kw tail Hm Htail. unfold member in Hm. cbn [existsb] in Hm.
  rewrite orb_false_r in Hm. apply orb_prop in Hm.
  destruct Hm as [Hk|Hk]; apply text_eqb_eq in Hk; subst kw;
    (split_tail Htail).
Qed.

Lemma scanning_copy_stripped raw : lstrip (scanning_copy raw) = scanning_copy raw.
Proof. unfold scanning_copy. destruct (_ =? 1); apply lstrip_strip. Qed.

(** *** The last steps of the validator

    When none of the earlier steps rejects the query, the first word of the
    scanning copy is select or with, and the result is decided by the keyword
    scan and the path-function pattern on the lowered scanning copy. *)
Lemma validate_late_steps raw :
  passes_earlier_steps raw ->
  (exists w, first_word (scanning_copy raw) = Some w
             /\ member (lower w) ["select"; "with"]%string = true)
  /\ _tabular_validate_query (Some raw)
     = match _tabular_find_dangerous_keyword (lower (scanning_copy raw)) with
       | Some _ => validation_error "query must be read-only"
       | None =>
         if has_path_function (lower (scanning_copy raw))
         then validation_error "path-reading functions are not allowed"
         else Ok (returned_text raw)
       end.
Proof.
  intros [Hmsg Hidx].
  assert (H1 := Hmsg "missing query"%string ltac:(cbn; tauto)).
  assert (H2 := Hmsg "invalid query"%string ltac:(cbn; tauto)).
  assert (H3 := Hmsg "query must be a single statement"%string ltac:(cbn; tauto)).
  assert (H4 := Hmsg "query must end with ';'"%string ltac:(cbn; tauto)).
  assert (H5 := Hmsg "only SELECT/CTE queries are allowed"%string ltac:(cbn; tauto)).
  clear Hmsg. revert H1 H2 H3 H4 H5 Hidx.
  unfold _tabular_validate_query, scanning_copy, returned_text, validation_error.
  set (query := strip raw).
  set (checked := strip (_tabular_strip_sql_literals_and_comments query)).
  destruct (text_eqb query []); [intros H; contradiction|].
  destruct (text_eqb checked []); [intros _ H; contradiction|].
  destruct (1 <? count ";" checked); [intros _ _ H; contradiction|].
  destruct (count ";" checked =? 1).
  - destruct (endswith ";" checked); cbn [negb bind]; [|intros _ _ H; contradiction].
    destruct (endswith ";" (rstrip query)); cbn [negb bind fst snd];
      [|intros _ _ _ H; contradiction].
    destruct (text_eqb (strip (drop_last checked)) []); [intros _ H; contradiction|].
    destruct (first_word (strip (drop_last checked))) as [w|];
      [|intros _ _ _ _ _ H; contradiction].
    destruct (member (lower w) ["select"; "with"]%string) eqn:Hm; cbn [negb];
      [|intros _ _ _ _ H; contradiction].
    intros _ _ _ _ _ _. split; [exists w; split; [reflexivity | exact Hm] | reflexivity].
  - cbn [bind fst snd].
    destruct (text_eqb checked []); [intros _ H; contradiction|].
    destruct (first_word checked) as [w|]; [|intros _ _ _ _ _ H; contradiction].
    destruct (member (lower w) ["select"; "with"]%string) eqn:Hm; cbn [negb];
      [|intros _ _ _ _ H; contradiction].
    intros _ _ _ _ _ _. split; [exists w; split; [reflexivity | exact Hm] | reflexivity].
Qed.

(** C2.  For a query that passes the steps before the keyword scan, the
    validator answers "query must be read-only" if and only if, among the
    tokens of the lowered scanning copy, some token of the closed keyword
    set comes right after a token that is not of the identifier-context
    set.  (The first token of such a query is select or with, so every
    keyword token has a token before it.) *)
Theorem keyword_scan_rejects_iff (raw : text) :
  passes_earlier_steps raw ->
  let tokens := tokenize (lower (scanning_copy raw)) in
  _tabular_validate_query (Some raw)
  = Raise (WorkerError VALIDATION_FAILED "query must be read-only")
  <-> exists i prev token,
        tokens !! i = Some prev /\ tokens !! S i = Some token
        /\ dangerous_word token /\ ~ identifier_context prev.
Proof.
  intros Hpass tokens.
  destruct (validate_late_steps raw Hpass) as ((w & Hw & Hm) & ->).
  destruct (first_token_is_first_word _ _ (scanning_copy_stripped raw) Hw Hm)
    as (rest & Htok & Hsafe).
  assert (Hscan : is_Some (_tabular_find_dangerous_keyword (lower (scanning_copy raw)))
                  <-> exists i prev token,
                        tokens !! i = Some prev /\ tokens !! S i = Some token
                        /\ dangerous_word token /\ ~ identifier_context prev).
  { unfold _tabular_find_dangerous_keyword. fold tokens. subst tokens.
    rewrite Htok. cbn [scan_tokens]. rewrite Hsafe, scan_after.
    split; intros (i & a & b & Ha & Hb & Hd & Hc); exists i, a, b;
      (split; [exact Ha|]; split; [exact Hb|]; split).
    - apply is_dangerous_word. exact Hd.
    - apply not_identifier_context. exact Hc.
    - apply is_dangerous_word. exact Hd.
    - apply not_identifier_context. exact Hc. }
  rewrite <- Hscan.
  destruct (_tabular_find_dangerous_keyword (lower (scanning_copy raw))) as [kw|].
  - split; [intros _; eauto | reflexivity].
  - split; [|intros [? [=]]].
    destruct (has_path_function _); discriminate.
Qed.

Ltac earlier_steps_pass :=
  split;
  [ intros m Hm; cbn in Hm;
    repeat (destruct Hm as [<-|Hm]; [vm_compute; discriminate|]); contradiction
  | vm_compute; discriminate ].

Lemma keyword_scan_rejects_iff_witness :
  _tabular_validate_query (Some (txt "SELECT a FROM t DROP"))
  = Raise (WorkerError VALIDATION_FAILED "query must be read-only")
  /\ _tabular_validate_query (Some (txt "SELECT Comment FROM data"))
     <> Raise (WorkerError VALIDATION_FAILED "query must be read-only").
Proof.
  assert (Hdrop : passes_earlier_steps (txt "SELECT a FROM t DROP"))
    by earlier_steps_pass.
  assert (Hcomment : passes_earlier_steps (txt "SELECT Comment FROM data"))
    by earlier_steps_pass.
  split.
  - apply (proj2 (keyword_scan_rejects_iff (txt "SELECT a FROM t DROP") Hdrop)).
    exists 3%nat, (txt "t"), (txt "drop").
    split; [reflexivity|]. split; [reflexivity|]. split.
    + exists "drop"%string. split; [cbn; tauto | reflexivity].
    + apply not_identifier_context. reflexivity.
  - intros Hrej.
    apply (proj1 (keyword_scan_rejects_iff (txt "SELECT Comment FROM data") Hcomment))
      in Hrej.
    destruct Hrej as (i & prev & token & Hp & Ht & Hd & Hc).
    apply is_dangerous_word in Hd. apply not_identifier_context in Hc.
    do 4 (destruct i as [|i];
          [vm_compute in Hp, Ht;
           first [discriminate Ht
                 |injection Hp as <-; injection Ht as <-; vm_compute in Hd, Hc;
                  congruence]|]).
    vm_compute in Hp. destruct i; discriminate Hp.
Defined.

End ScanFacts.
(** ** Literals, comments and the final semicolon *)

Module SemicolonFacts.
Import Validator Vocabulary TextFacts ScanFacts.

(** The scanner with the index kept emits the characters of the scanner
    without it. *)
Lemma strip_loop_at_erase sql :
  forall i state, map snd (strip_loop_at i state sql) = strip_loop state sql.
Proof.
  remember (length sql) as n eqn:Hn. revert sql Hn.
  induction n as [n IH] using lt_wf_ind. intros sql -> i state.
  destruct sql as [|ch tl]; [reflexivity|].
  destruct state; cbn [strip_loop strip_loop_at];
    destruct tl as [|nxt tl2]; cbv iota;
    repeat match goal with
           | |- context [if ?b then _ else _] => destruct b
           end;
    cbn [map snd]; try reflexivity; try f_equal;
    (eapply IH; [|reflexivity]; cbn [length]; lia).
Qed.

(** *** What the scanner takes out *)

Lemma chr_eqb_neq a b : a <> b -> chr_eqb a b = false.
Proof. intros H. destruct (chr_eqb a b) eqn:E; [|reflexivity]. apply chr_eqb_eq in E. done. Qed.

Lemma head_not_quote q (rest : text) :
  head rest <> Some q ->
  match rest with
  | nxt :: _ => chr_eqb q q && chr_eqb nxt q = false
  | [] => True
  end.
Proof.
  destruct rest as [|nxt tl]; [done|]. cbn [head]. intros H.
  rewrite (chr_eqb_neq nxt q); [apply andb_false_r | congruence].
Qed.

(** A single-quoted literal, doubled quotes included, leaves one space in
    the scanning copy. *)
Lemma single_quoted_literal_blanked body rest :
  quoted_body SQ body -> head rest <> Some SQ ->
  strip_loop normal (SQ :: body ++ SQ :: rest) = " "%char :: strip_loop normal rest.
Proof.
  intros Hb Hrest. cbn [strip_loop]. change (chr_eqb SQ SQ) with true. cbv iota.
  f_equal. induction Hb as [|c b Hc Hb IH|b Hb IH].
  - cbn [app strip_loop]. pose proof (head_not_quote SQ rest Hrest) as Hq.
    destruct rest as [|nxt tl]; [reflexivity|]. rewrite Hq. reflexivity.
  - cbn [app strip_loop]. rewrite (chr_eqb_neq c SQ Hc). cbn [andb].
    destruct (b ++ SQ :: rest) eqn:E; [destruct b; discriminate|]. exact IH.
  - cbn [app strip_loop]. change (chr_eqb SQ SQ) with true. cbn [andb]. exact IH.
Qed.

(** The same for a double-quoted text. *)
Lemma double_quoted_literal_blanked body rest :
  quoted_body DQ body -> head rest <> Some DQ ->
  strip_loop normal (DQ :: body ++ DQ :: rest) = " "%char :: strip_loop normal rest.
Proof.
  intros Hb Hrest. cbn [strip_loop]. change (chr_eqb DQ SQ) with false.
  change (chr_eqb DQ DQ) with true. cbv iota.
  f_equal. induction Hb as [|c b Hc Hb IH|b Hb IH].
  - cbn [app strip_loop]. pose proof (head_not_quote DQ rest Hrest) as Hq.
    destruct rest as [|nxt tl]; [reflexivity|]. rewrite Hq. reflexivity.
  - cbn [app strip_loop]. rewrite (chr_eqb_neq c DQ Hc). cbn [andb].
    destruct (b ++ DQ :: rest) eqn:E; [destruct b; discriminate|]. exact IH.
  - cbn [app strip_loop]. change (chr_eqb DQ DQ) with true. cbn [andb]. exact IH.
Qed.

(** A line comment leaves its line feed, or nothing when the text ends
    first. *)
Lemma line_comment_dropped body rest :
  Forall (fun c => c <> LF) body ->
  strip_loop normal ("-" :: "-" :: body ++ LF :: rest)%char = LF :: strip_loop normal rest
  /\ strip_loop normal ("-" :: "-" :: body)%char = [].
Proof.
  intros Hb. cbn [strip_loop]. change (chr_eqb "-" SQ) with false.
  change (chr_eqb "-" DQ) with false. change (chr_eqb "-" "-") with true.
  cbn [andb]. cbv iota.
  induction Hb as [|c b Hc Hb [IH1 IH2]]; cbn [app strip_loop].
  - change (chr_eqb LF LF) with true. cbv iota. split; reflexivity.
  - rewrite (chr_eqb_neq c LF Hc). split; assumption.
Qed.

(** A block comment leaves its line feeds. *)
Lemma block_comment_dropped body rest :
  contains (txt "*/") (body ++ ["*"%char]) = false ->
  strip_loop normal ("/" :: "*" :: body ++ "*" :: "/" :: rest)%char
  = List.filter (chr_eqb LF) body ++ strip_loop normal rest.
Proof.
  intros Hb. cbn [strip_loop]. change (chr_eqb "/" SQ) with false.
  change (chr_eqb "/" DQ) with false. change (chr_eqb "/" "-") with false.
  change (chr_eqb "/" "/") with true. change (chr_eqb "*" "*") with true.
  cbn [andb]. cbv iota.
  induction body as [|c b IH]; cbn [app strip_loop List.filter].
  - change (chr_eqb "*" "*") with true. change (chr_eqb "/" "/") with true.
    reflexivity.
  - cbn [app contains] in Hb. apply orb_false_elim in Hb as [Hstart Hb].
    specialize (IH Hb).
    assert (Hnext : forall nxt tl2, b ++ "*"%char :: "/"%char :: rest = nxt :: tl2 ->
              chr_eqb c "*" && chr_eqb nxt "/" = false).
    { intros nxt tl2 E. cbn [txt list_ascii_of_string starts_with] in Hstart.
      destruct b as [|y b']; cbn [app] in E, Hstart; injection E as <- _.
      - rewrite andb_true_r in Hstart. rewrite andb_false_r. reflexivity.
      - rewrite andb_true_r in Hstart.
        rewrite (Ascii.eqb_sym c), (Ascii.eqb_sym y). exact Hstart. }
    destruct (b ++ "*"%char :: "/"%char :: rest) as [|nxt tl2] eqn:E;
      [destruct b; discriminate|].
    rewrite (Hnext nxt tl2 eq_refl).
    destruct (chr_eqb c LF) eqn:Ec.
    + apply chr_eqb_eq in Ec. subst c. rewrite chr_eqb_refl. cbn [app].
      rewrite IH. reflexivity.
    + rewrite (chr_eqb_neq LF c); [exact IH|].
      intros <-. rewrite chr_eqb_refl in Ec. discriminate Ec.
Qed.

(** *** The semicolon rules of the validator *)

Lemma two_semicolons_rejected raw :
  1 < count ";" (untrimmed_copy raw) ->
  _tabular_validate_query (Some raw)
  = Raise (WorkerError VALIDATION_FAILED "query must be a single statement").
Proof.
  unfold untrimmed_copy, _tabular_validate_query, validation_error. intros Hc.
  destruct (text_eqb (strip raw) []) eqn:Eq.
  - apply text_eqb_eq in Eq. rewrite Eq in Hc. vm_compute in Hc. discriminate Hc.
  - set (checked := strip (_tabular_strip_sql_literals_and_comments (strip raw))) in *.
    destruct (text_eqb checked []) eqn:Ec.
    + apply text_eqb_eq in Ec. rewrite Ec in Hc. vm_compute in Hc. discriminate Hc.
    + apply Z.ltb_lt in Hc. rewrite Hc. reflexivity.
Qed.

Lemma one_semicolon_accepted raw q :
  count ";" (untrimmed_copy raw) = 1 ->
  _tabular_validate_query (Some raw) = Ok q ->
  endswith ";" (untrimmed_copy raw) = true
  /\ endswith ";" (rstrip (strip raw)) = true
  /\ q = strip (drop_last (rstrip (strip raw))).
Proof.
  unfold untrimmed_copy, _tabular_validate_query, validation_error. intros Hc.
  set (checked := strip (_tabular_strip_sql_literals_and_comments (strip raw))) in *.
  rewrite Hc. change (1 <? 1) with false. change (1 =? 1) with true. cbv iota.
  destruct (text_eqb (strip raw) []); [discriminate|].
  destruct (text_eqb checked []); [discriminate|].
  destruct (endswith ";" checked); cbn [negb bind]; [|discriminate].
  destruct (endswith ";" (rstrip (strip raw))); cbn [negb bind fst snd]; [|discriminate].
  destruct (text_eqb (strip (drop_last checked)) []); [discriminate|].
  destruct (first_word _); [|discriminate].
  destruct (negb _); [discriminate|].
  destruct (_tabular_find_dangerous_keyword _); [discriminate|].
  destruct (has_path_function _); [discriminate|].
  intros [= <-]. auto.
Qed.

(** What is returned is the query without its surrounding white space and,
    when the scanning copy has a semicolon, without its last character. *)
Lemma accepted_text raw q :
  _tabular_validate_query (Some raw) = Ok q -> q = returned_text raw.
Proof.
  intros Hq.
  assert (Hpass : passes_earlier_steps raw).
  { split; [intros m _|]; rewrite Hq; discriminate. }
  destruct (validate_late_steps raw Hpass) as [_ Hlate]. rewrite Hq in Hlate.
  destruct (_tabular_find_dangerous_keyword _); [discriminate|].
  destruct (has_path_function _); [discriminate|].
  injection Hlate as ->. reflexivity.
Qed.

(** C3 at a failing query.  In "SELECT 1; -- done;" the scanning copy has
    one semicolon, the statement terminator at place 8 of the text; the last
    character of the original, at place 17, is a semicolon inside the line
    comment.  Both texts end with a semicolon, so the validator accepts, and
    the character it trims is the one of the comment: the returned text
    still holds the terminator at place 8. *)
Theorem comment_semicolon_trimmed_for_terminator :
  let raw := txt "SELECT 1; -- done;" in
  count ";" (untrimmed_copy raw) = 1
  /\ str (untrimmed_copy raw) = "SELECT 1;"%string
  /\ semicolon_origins raw = [8%nat]
  /\ last_place raw = 17%nat
  /\ validate "SELECT 1; -- done;" = Ok "SELECT 1; -- done"%string
  /\ txt "SELECT 1; -- done" !! 8%nat = Some ";"%char.
Proof. repeat split; vm_compute; reflexivity. Qed.

End SemicolonFacts.

(** ** More on the scanner and the tokenizer *)

Module ScannerFacts.
Import Validator Vocabulary TextFacts ScanFacts SemicolonFacts.

Lemma strip_loop_emits sql :
  forall state c, In c (strip_loop state sql) ->
    c <> SQ /\ c <> DQ /\ (c = " "%char \/ c = LF \/ In c sql).
Proof.
  remember (length sql) as n eqn:Hn. revert sql Hn.
  induction n as [n IH] using lt_wf_ind. intros sql -> state c.
  destruct sql as [|ch tl]; [intros []|].
  assert (Hrec : forall st (s : text), (length s < length (ch :: tl))%nat ->
            (forall x, In x s -> In x (ch :: tl)) ->
            In c (strip_loop st s) ->
            c <> SQ /\ c <> DQ /\ (c = " "%char \/ c = LF \/ In c (ch :: tl))).
  { intros st s Hlen Hsub Hin.
    destruct (IH _ Hlen s eq_refl st c Hin) as (H1 & H2 & [H3|[H3|H3]]);
      (split; [exact H1|split; [exact H2|auto]]). }
  assert (Hsp : " "%char <> SQ /\ " "%char <> DQ) by (split; discriminate).
  assert (Hlf : LF <> SQ /\ LF <> DQ) by (split; discriminate).
  destruct state; cbn [strip_loop];
    destruct tl as [|nxt tl2]; cbv iota;
    repeat match goal with
           | |- context [if ?b then _ else _] => destruct b eqn:?
           end;
    cbn [In]; intros Hin;
    repeat match goal with
           | H : _ \/ _ |- _ => destruct H as [<-|H]
           | H : False |- _ => destruct H
           end;
    try (split; [apply Hsp|split; [apply Hsp|auto]]; fail);
    try (split; [apply Hlf|split; [apply Hlf|auto]]; fail);
    try (eapply Hrec; [| |eassumption]; [cbn [length]; lia | cbn [In]; auto]; fail).
  all: split; [intros ->; discriminate|split; [intros ->; discriminate|cbn [In]; auto]].
Qed.

(** X1.  The scanning copy holds no quote of either kind, and every
    character of it is a character of the query, a space or a line feed. *)
Theorem scanning_copy_has_no_quotes (sql : text) (c : ascii) :
  In c (_tabular_strip_sql_literals_and_comments sql) ->
  c <> SQ /\ c <> DQ /\ (c = " "%char \/ c = LF \/ In c sql).
Proof. apply strip_loop_emits. Qed.

Lemma scanning_copy_has_no_quotes_witness :
  "x"%char <> SQ /\ "x"%char <> DQ
  /\ ("x"%char = " "%char \/ "x"%char = LF \/ In "x"%char (txt "'a' x")).
Proof.
  apply (scanning_copy_has_no_quotes (txt "'a' x") "x").
  vm_compute. auto 10.
Defined.


Lemma strip_loop_length sql :
  forall state, (length (strip_loop state sql) <= length sql)%nat.
Proof.
  remember (length sql) as n eqn:Hn. revert sql Hn.
  induction n as [n IH] using lt_wf_ind. intros sql -> state.
  destruct sql as [|ch tl]; [cbn; lia|].
  assert (Hrec : forall st (s : text), (length s < length (ch :: tl))%nat ->
            (length (strip_loop st s) <= length s)%nat).
  { intros st s Hlen. exact (IH _ Hlen s eq_refl st). }
  destruct state; cbn [strip_loop];
    destruct tl as [|nxt tl2]; cbv iota;
    repeat match goal with
           | |- context [if ?b then _ else _] => destruct b
           end;
    cbn [length];
    match goal with
    | |- context [strip_loop ?st ?s] =>
      pose proof (Hrec st s ltac:(cbn [length]; lia)) as Hle; cbn [length] in Hle; lia
    end.
Qed.

(** X2.  The scanning copy is never longer than the query. *)
Theorem scanning_copy_not_longer (sql : text) :
  (length (_tabular_strip_sql_literals_and_comments sql) <= length sql)%nat.
Proof. apply strip_loop_length. Qed.

(** X3.  A query without quotes and without the two comment openers is
    its own scanning copy. *)
Theorem plain_text_is_kept (sql : text) :
  Helpers.has_char SQ sql = false ->
  Helpers.has_char DQ sql = false ->
  contains (txt "--") sql = false ->
  contains (txt "/*") sql = false ->
  _tabular_strip_sql_literals_and_comments sql = sql.
Proof.
  unfold _tabular_strip_sql_literals_and_comments, Helpers.has_char.
  induction sql as [|ch tl IH]; [reflexivity|].
  cbn [existsb contains]. intros Hs Hd Hl Hb.
  apply orb_false_elim in Hs as [Hs1 Hs2]. apply orb_false_elim in Hd as [Hd1 Hd2].
  apply orb_false_elim in Hl as [Hl1 Hl2]. apply orb_false_elim in Hb as [Hb1 Hb2].
  specialize (IH Hs2 Hd2 Hl2 Hb2).
  unfold chr_eqb in Hs1, Hd1. rewrite Ascii.eqb_sym in Hs1. rewrite Ascii.eqb_sym in Hd1.
  cbn [strip_loop]. unfold chr_eqb at 1 2. rewrite Hs1, Hd1.
  destruct tl as [|nxt tl2]; [reflexivity|].
  cbn [txt list_ascii_of_string starts_with] in Hl1, Hb1.
  rewrite andb_true_r in Hl1, Hb1.
  unfold chr_eqb in *.
  rewrite (Ascii.eqb_sym "-" ch), (Ascii.eqb_sym "-" nxt) in Hl1.
  rewrite (Ascii.eqb_sym "/" ch), (Ascii.eqb_sym "*" nxt) in Hb1.
  rewrite Hl1, Hb1. f_equal. exact IH.
Qed.

Lemma plain_text_is_kept_witness :
  _tabular_strip_sql_literals_and_comments (txt "SELECT a - b FROM data") = txt "SELECT a - b FROM data".
Proof. apply plain_text_is_kept; reflexivity. Defined.

(** *** The token splitter *)

Lemma split_loop_concat s : forall m, concat (split_loop m s) = mode_text m ++ s.
Proof.
  induction s as [|c tl IH]; intros m.
  - destruct m; cbn; rewrite ?app_nil_r; reflexivity.
  - cbn [split_loop]. destruct (is_space c); [|destruct (is_split_punct c)];
      destruct m; cbn [concat mode_text app]; rewrite ?IH; cbn [mode_text rev app];
      rewrite <- ?app_assoc; reflexivity.
Qed.

(** X4.  Joining the parts that the splitter returns gives the text back. *)
Theorem token_split_joins_back (s : text) : concat (token_split s) = s.
Proof. unfold token_split. rewrite split_loop_concat. reflexivity. Qed.

Lemma in_rev_shape (P : ascii -> Prop) (l : text) :
  (forall c, In c l -> P c) -> forall c, In c (rev l) -> P c.
Proof. intros H c Hc. apply H. apply in_rev. exact Hc. Qed.

Lemma split_loop_shapes s :
  forall m, mode_shape m -> forall t, In t (split_loop m s) -> part_shape t.
Proof.
  induction s as [|c tl IH]; intros m Hm t.
  - destruct m; cbn [split_loop In mode_shape] in *.
    + intros [<-|[]]. left. apply in_rev_shape. exact Hm.
    + intros [<-|[<-|[]]]; [right; left; apply in_rev_shape; exact Hm|].
      left. intros ? [].
  - cbn [split_loop].
    destruct (is_space c) eqn:Hsp; [|destruct (is_split_punct c) eqn:Hpu];
      destruct m; cbn [In mode_shape] in *.
    + intros [<-|Hin]; [left; apply in_rev_shape; exact Hm|].
      apply (IH (in_space [c])); [|exact Hin]. intros x [<-|[]]. exact Hsp.
    + apply IH. intros x [<-|Hx]; [exact Hsp | exact (Hm x Hx)].
    + intros [<-|[<-|Hin]].
      * left. apply in_rev_shape. exact Hm.
      * right. right. eauto.
      * apply (IH (in_piece [])); [|exact Hin]. intros ? [].
    + intros [<-|[<-|[<-|Hin]]].
      * right. left. apply in_rev_shape. exact Hm.
      * left. intros ? [].
      * right. right. eauto.
      * apply (IH (in_piece [])); [|exact Hin]. intros ? [].
    + apply IH. intros x [<-|Hx]; [split; assumption | exact (Hm x Hx)].
    + intros [<-|Hin]; [right; left; apply in_rev_shape; exact Hm|].
      apply (IH (in_piece [c])); [|exact Hin]. intros x [<-|[]]. split; assumption.
Qed.

Lemma lstrip_all_space t : (forall c, In c t -> is_space c = true) -> lstrip t = [].
Proof.
  induction t as [|x t IH]; intros H; [reflexivity|].
  cbn [lstrip]. rewrite (H x (or_introl eq_refl)). apply IH. intros c Hc. apply H. right. exact Hc.
Qed.

Lemma blank_part t : (forall c, In c t -> is_space c = true) -> nonblank t = false.
Proof.
  intros H. unfold nonblank, strip. rewrite (lstrip_all_space t H). reflexivity.
Qed.

(** X5.  Every token is non-empty and free of white space, and is either
    one punctuation character or a run without punctuation. *)
Theorem tokens_are_words_or_punctuation (lowered_sql tok : text) :
  In tok (tokenize lowered_sql) ->
  tok <> []
  /\ (forall c, In c tok -> is_space c = false)
  /\ ((exists c, tok = [c] /\ is_split_punct c = true)
      \/ forall c, In c tok -> is_split_punct c = false).
Proof.
  unfold tokenize, token_split. intros Hin. apply filter_In in Hin as [Hin Hnb].
  assert (Hne : tok <> []) by (intros ->; discriminate Hnb).
  destruct (split_loop_shapes lowered_sql (in_piece []) ltac:(intros ? []) tok Hin)
    as [Hw|[Hs|(c & -> & Hsp & Hpu)]].
  - split; [exact Hne|]. split; [intros c Hc; apply (Hw c Hc)|].
    right. intros c Hc. apply (Hw c Hc).
  - rewrite (blank_part tok Hs) in Hnb. discriminate Hnb.
  - split; [exact Hne|]. split; [intros x [<-|[]]; exact Hsp|]. left. eauto.
Qed.

Lemma tokens_are_words_or_punctuation_witness :
  txt "drop" <> []
  /\ (forall c, In c (txt "drop") -> is_space c = false)
  /\ ((exists c, txt "drop" = [c] /\ is_split_punct c = true)
      \/ forall c, In c (txt "drop") -> is_split_punct c = false).
Proof.
  apply (tokens_are_words_or_punctuation (txt "select 1; drop table data") (txt "drop")).
  vm_compute. auto 10.
Defined.


End ScannerFacts.

(** ** More on the validator *)

Module ValidatorFacts.
Import Validator Vocabulary TextFacts ScanFacts SemicolonFacts.

Lemma lstrip_idem t : lstrip (lstrip t) = lstrip t.
Proof.
  destruct (lstrip_head t) as [->|(c & r & -> & Hc)]; [reflexivity|].
  apply lstrip_fixed. exact Hc.
Qed.

Lemma rstrip_idem t : rstrip (rstrip t) = rstrip t.
Proof. unfold rstrip. rewrite rev_involutive, lstrip_idem. reflexivity. Qed.

Lemma strip_idem t : strip (strip t) = strip t.
Proof.
  unfold strip at 1. rewrite lstrip_strip. unfold strip. apply rstrip_idem.
Qed.

(** The validator reads its argument only through [strip]. *)
Lemma validate_ignores_margins raw :
  _tabular_validate_query (Some (strip raw)) = _tabular_validate_query (Some raw).
Proof. unfold _tabular_validate_query. rewrite strip_idem. reflexivity. Qed.

(** X6.  When the scanning copy of an accepted query has no semicolon, the
    accepted text is the query without its surrounding white space, and the
    validator accepts that text again and returns it unchanged. *)
Theorem validate_idempotent_without_semicolon (raw q : text) :
  count ";" (untrimmed_copy raw) = 0 ->
  _tabular_validate_query (Some raw) = Ok q ->
  q = strip raw /\ _tabular_validate_query (Some q) = Ok q.
Proof.
  intros Hc Hq.
  assert (Hs : q = strip raw).
  { rewrite (accepted_text raw q Hq). unfold returned_text.
    unfold untrimmed_copy in Hc. rewrite Hc. reflexivity. }
  split; [exact Hs|]. rewrite Hs at 1. rewrite validate_ignores_margins. exact Hq.
Qed.

Lemma validate_idempotent_without_semicolon_witness :
  _tabular_validate_query (Some (txt "SELECT a FROM data")) = Ok (txt "SELECT a FROM data").
Proof.
  apply (proj2 (validate_idempotent_without_semicolon
                  (txt "  SELECT a FROM data ") (txt "SELECT a FROM data")
                  ltac:(vm_compute; reflexivity) ltac:(vm_compute; reflexivity))).
Defined.

(** *** No semicolon is left to scan *)

Lemma count_app c a b : count c (a ++ b) = count c a + count c b.
Proof. unfold count. rewrite List.filter_app, length_app. lia. Qed.

Lemma count_rev c t : count c (rev t) = count c t.
Proof.
  induction t as [|x t IH]; [reflexivity|].
  cbn [rev]. rewrite count_app, IH. unfold count. cbn [List.filter].
  destruct (chr_eqb c x); cbn [length]; lia.
Qed.

Lemma count_lstrip c t : is_space c = false -> count c (lstrip t) = count c t.
Proof.
  intros Hc. induction t as [|x t IH]; [reflexivity|].
  cbn [lstrip]. destruct (is_space x) eqn:Hx; [|reflexivity].
  rewrite IH. unfold count. cbn [List.filter].
  destruct (chr_eqb c x) eqn:E; [|reflexivity].
  apply chr_eqb_eq in E. congruence.
Qed.

Lemma count_strip c t : is_space c = false -> count c (strip t) = count c t.
Proof.
  intros Hc. unfold strip, rstrip.
  rewrite count_rev, (count_lstrip c _ Hc), count_rev. apply count_lstrip. exact Hc.
Qed.

Lemma count_drop_last c t :
  endswith c t = true -> count c (drop_last t) = count c t - 1.
Proof.
  unfold endswith, drop_last. intros He.
  destruct (last t) as [d|] eqn:Hl; [|discriminate He].
  apply chr_eqb_eq in He. subst d.
  apply last_Some in Hl as [t' ->].
  rewrite removelast_last, count_app. unfold count at 3. cbn [List.filter].
  rewrite chr_eqb_refl. cbn [length]. lia.
Qed.

(** X7.  The text whose keywords are scanned holds no semicolon when the
    query is accepted. *)
Theorem accepted_scanning_copy_has_no_semicolon (raw q : text) :
  _tabular_validate_query (Some raw) = Ok q ->
  count ";" (scanning_copy raw) = 0.
Proof.
  unfold _tabular_validate_query, scanning_copy, validation_error.
  set (checked := strip (_tabular_strip_sql_literals_and_comments (strip raw))).
  destruct (text_eqb (strip raw) []); [discriminate|].
  destruct (text_eqb checked []); [discriminate|].
  destruct (Z.ltb_spec 1 (count ";" checked)) as [|Hle]; [discriminate|].
  destruct (Z.eqb_spec (count ";" checked) 1) as [H1|Hne].
  - destruct (endswith ";" checked) eqn:He; cbn [negb bind]; [|discriminate].
    intros _. rewrite count_strip by reflexivity.
    rewrite (count_drop_last _ _ He). lia.
  - intros _. unfold count in *. lia.
Qed.

Lemma accepted_scanning_copy_has_no_semicolon_witness :
  count ";" (scanning_copy (txt "SELECT ';' AS s;")) = 0.
Proof.
  apply (accepted_scanning_copy_has_no_semicolon (txt "SELECT ';' AS s;")
           (txt "SELECT ';' AS s")).
  vm_compute. reflexivity.
Defined.

(** *** Calls of path-reading functions *)

Lemma search_loop_later pre s :
  forall prev,
    search_loop (match last pre with Some c => Some c | None => prev end) s = true ->
    search_loop prev (pre ++ s) = true.
Proof.
  induction pre as [|c pre IH]; intros prev H; [exact H|].
  cbn [app search_loop]. apply orb_true_iff. right. apply IH.
  rewrite last_cons in H. destruct (last pre); exact H.
Qed.

Lemma listed_call_matches f suf :
  In f listed_path_functions ->
  matches_prefix path_function_call (txt f ++ "("%char :: suf) = true
  /\ from_option is_word false (head (txt f ++ "("%char :: suf)) = true.
Proof.
  intros Hf. cbn [listed_path_functions In] in Hf.
  repeat (destruct Hf as [<-|Hf]; [split; [destruct suf|]; lazy; reflexivity|]).
  destruct Hf.
Qed.

(** X8.  A query in whose lowered scanning copy one of glob, open_url,
    httpfs, read_csv, read_parquet or read_json stands at the start of a
    word and is followed by an opening parenthesis is never accepted. *)
Theorem listed_path_function_call_never_accepted (raw q pre suf : text) (f : string) :
  In f listed_path_functions ->
  ends_outside_word pre ->
  lower (scanning_copy raw) = pre ++ txt f ++ "("%char :: suf ->
  _tabular_validate_query (Some raw) <> Ok q.
Proof.
  intros Hf Hpre Hlow Hq.
  assert (Hpass : passes_earlier_steps raw).
  { split; [intros m _|]; rewrite Hq; discriminate. }
  destruct (validate_late_steps raw Hpass) as [_ Hlate]. rewrite Hq in Hlate.
  destruct (_tabular_find_dangerous_keyword _); [discriminate|].
  assert (Hfound : has_path_function (lower (scanning_copy raw)) = true).
  { rewrite Hlow. unfold has_path_function. apply search_loop_later.
    destruct (listed_call_matches f suf Hf) as [Hm Hw].
    destruct (txt f ++ "("%char :: suf) as [|x s'] eqn:E; [discriminate Hw|].
    cbn [search_loop]. rewrite Hm. unfold word_boundary. cbn [head] in *.
    rewrite Hw. unfold ends_outside_word in Hpre.
    destruct (last pre) as [c|]; cbn [from_option]; [rewrite Hpre|]; reflexivity. }
  rewrite Hfound in Hlate. discriminate Hlate.
Qed.

Lemma listed_path_function_call_never_accepted_witness :
  _tabular_validate_query (Some (txt "SELECT * FROM Read_Parquet('x')"))
  <> Ok (txt "SELECT * FROM Read_Parquet('x')").
Proof.
  apply (listed_path_function_call_never_accepted _ _
           (txt "select * from ") (txt " )") "read_parquet").
  - cbn. tauto.
  - reflexivity.
  - vm_compute. reflexivity.
Defined.

(** *** A query that is only a comment *)

Lemma in_lstrip c t : In c (lstrip t) -> In c t.
Proof.
  induction t as [|x t IH]; [intros []|]. cbn [lstrip].
  destruct (is_space x); [right; auto | auto].
Qed.

Lemma in_rstrip c t : In c (rstrip t) -> In c t.
Proof.
  unfold rstrip. intros H. apply in_rev in H. apply in_lstrip in H.
  apply in_rev. exact H.
Qed.

(** X9.  A query that is one line comment and nothing else is rejected with
    the message "invalid query". *)
Theorem comment_only_query_is_invalid (body : text) :
  (forall c, In c body -> c <> LF) ->
  _tabular_validate_query (Some ("-" :: "-" :: body)%char)
  = Raise (WorkerError VALIDATION_FAILED "invalid query").
Proof.
  intros Hb. unfold _tabular_validate_query, validation_error.
  assert (Hs : strip ("-" :: "-" :: body)%char = ("-" :: "-" :: rstrip body)%char).
  { unfold strip. rewrite lstrip_fixed by reflexivity.
    rewrite !rstrip_cons by reflexivity. reflexivity. }
  rewrite Hs. cbn [text_eqb].
  assert (Hc : _tabular_strip_sql_literals_and_comments ("-" :: "-" :: rstrip body)%char = []).
  { apply line_comment_dropped; [exact []|].
    apply List.Forall_forall. intros c Hc. apply Hb. apply in_rstrip. exact Hc. }
  rewrite Hc. reflexivity.
Qed.

Lemma comment_only_query_is_invalid_witness :
  _tabular_validate_query (Some (txt "-- nothing to run; "))
  = Raise (WorkerError VALIDATION_FAILED "invalid query").
Proof.
  apply (comment_only_query_is_invalid (txt " nothing to run; ")).
  intros c Hc. cbn in Hc.
  repeat (destruct Hc as [<-|Hc]; [discriminate|]). destruct Hc.
Defined.

(** *** Quoted identifiers and literals *)

Lemma double_char_body q v : quoted_body q (Sql.double_char q v).
Proof.
  induction v as [|x v IH]; [constructor|].
  unfold Sql.double_char. cbn [flat_map]. fold (Sql.double_char q v).
  destruct (chr_eqb x q) eqn:E; cbn [app].
  - apply quoted_escape. exact IH.
  - apply quoted_char; [|exact IH]. intros ->. rewrite chr_eqb_refl in E. discriminate E.
Qed.

(** X10.  Whatever the name or the value is, the scanner reads a quoted
    identifier and a quoted literal as one literal: it leaves one space and
    goes on in the normal state with the text that follows. *)
Theorem quoted_text_is_one_literal (v rest : text) :
  (head rest <> Some DQ ->
   _tabular_strip_sql_literals_and_comments (Sql._tabular_quote_ident v ++ rest)
   = " "%char :: _tabular_strip_sql_literals_and_comments rest)
  /\ (head rest <> Some SQ ->
      _tabular_strip_sql_literals_and_comments (Sql._tabular_quote_literal v ++ rest)
      = " "%char :: _tabular_strip_sql_literals_and_comments rest).
Proof.
  unfold _tabular_strip_sql_literals_and_comments, Sql._tabular_quote_ident,
    Sql._tabular_quote_literal.
  split; intros Hrest; cbn [app]; rewrite <- app_assoc; cbn [app].
  - apply double_quoted_literal_blanked; [apply double_char_body | exact Hrest].
  - apply single_quoted_literal_blanked; [apply double_char_body | exact Hrest].
Qed.

Lemma quoted_text_is_one_literal_witness :
  _tabular_strip_sql_literals_and_comments
    (Sql._tabular_quote_literal (txt "it's; DROP") ++ txt " AS s")
  = " "%char :: _tabular_strip_sql_literals_and_comments (txt " AS s").
Proof.
  apply (proj2 (quoted_text_is_one_literal (txt "it's; DROP") (txt " AS s"))).
  discriminate.
Defined.

Lemma double_char_injective q : forall a b,
  Sql.double_char q a = Sql.double_char q b -> a = b.
Proof.
  unfold Sql.double_char.
  induction a as [|x a IH]; intros [|y b]; cbn [flat_map].
  - reflexivity.
  - destruct (chr_eqb y q); discriminate.
  - destruct (chr_eqb x q); discriminate.
  - destruct (chr_eqb x q) eqn:Ex; destruct (chr_eqb y q) eqn:Ey; cbn [app].
    + apply chr_eqb_eq in Ex, Ey. subst. intros [= H]. f_equal. exact (IH _ H).
    + intros [= <- H]. rewrite chr_eqb_refl in Ey. discriminate Ey.
    + intros [= -> H]. rewrite chr_eqb_refl in Ex. discriminate Ex.
    + intros [= -> H]. f_equal. exact (IH _ H).
Qed.

(** X11.  Two names that are quoted to the same identifier are the same
    name, and likewise for literals. *)
Theorem quoting_is_injective (a b : text) :
  (Sql._tabular_quote_ident a = Sql._tabular_quote_ident b -> a = b)
  /\ (Sql._tabular_quote_literal a = Sql._tabular_quote_literal b -> a = b).
Proof.
  unfold Sql._tabular_quote_ident, Sql._tabular_quote_literal.
  split; intros [= H]; apply app_inj_tail in H as [H _];
    exact (double_char_injective _ _ _ H).
Qed.

Lemma quoting_is_injective_witness :
  txt "it's" = txt "it's".
Proof.
  apply (proj2 (quoting_is_injective (txt "it's") (txt "it's"))). reflexivity.
Defined.


End ValidatorFacts.

(** ** Type families, column selection, sheet names, session settings *)

Module SqlFacts.
Import Sql Vocabulary TextFacts.

Local Open Scope string_scope.

(** X12.  The family of an inferred type is numeric, boolean, date or
    string: the family "other" does not occur for a type that
    [_tabular_inferred_type] gives. *)
Theorem inferred_type_has_a_family (db_type : text) :
  In (_tabular_type_family (ColumnTypes._tabular_inferred_type db_type))
     ["numeric"; "boolean"; "date"; "string"].
Proof.
  unfold ColumnTypes._tabular_inferred_type.
  repeat match goal with
         | |- context [if ?b then _ else _] => destruct b
         end; cbn; tauto.
Qed.

(** *** Column selection *)

Lemma schema_by_name_entries schema :
  forall name col, schema_by_name schema !! name = Some col ->
    col_name col = name /\ In col schema.
Proof.
  unfold schema_by_name.
  assert (H : forall (m : gmap string column),
             (forall name col, m !! name = Some col -> col_name col = name /\ In col schema) ->
             forall l, (forall c, In c l -> In c schema) ->
             forall name col,
               foldl (fun m col => <[col_name col := col]> m) m l !! name = Some col ->
               col_name col = name /\ In col schema).
  { intros m Hm l. revert m Hm. induction l as [|c l IH]; intros m Hm Hl name col; cbn [foldl].
    - apply Hm.
    - apply IH.
      + intros n c' Hc'. destruct (decide (col_name c = n)) as [<-|Hne].
        * rewrite lookup_insert_eq in Hc'. injection Hc' as <-.
          split; [reflexivity|]. apply Hl. left. reflexivity.
        * rewrite lookup_insert_ne in Hc' by exact Hne. apply Hm. exact Hc'.
      + intros c' Hc'. apply Hl. right. exact Hc'. }
  apply H; [|auto]. intros name col Hl. rewrite lookup_empty in Hl. discriminate Hl.
Qed.

Lemma select_loop_selected by_name items :
  (forall name col, by_name !! name = Some col -> col_name col = name) ->
  forall seen selected,
    select_loop by_name seen items = Ok selected ->
    NoDup (map col_name selected)
    /\ forall c, In c selected ->
         (col_name c ∉ seen)
         /\ by_name !! col_name c = Some c
         /\ exists raw, In (Some raw) items /\ col_name c = str (strip raw).
Proof.
  intros Hkeys.
  induction items as [|[raw|] items IH]; intros seen selected; cbn [select_loop].
  - intros [= <-]. split; [constructor | intros c []].
  - destruct (strip raw) as [|x name'] eqn:Hname; [discriminate|].
    remember (str (x :: name')) as name eqn:En.
    destruct (bool_decide (name ∈ seen)) eqn:Hseen.
    + intros Hsel. destruct (IH _ _ Hsel) as [Hnd Hall]. split; [exact Hnd|].
      intros c Hc. destruct (Hall c Hc) as (H1 & H2 & r & Hr & Hn).
      split; [exact H1|]. split; [exact H2|]. exists r. split; [right; exact Hr | exact Hn].
    + apply bool_decide_eq_false in Hseen.
      destruct (by_name !! name) as [col|] eqn:Hcol; [|discriminate].
      destruct (select_loop by_name _ items) as [rest|e] eqn:Hrest; [|discriminate].
      cbn [bind]. intros [= <-]. destruct (IH _ _ Hrest) as [Hnd Hall].
      pose proof (Hkeys _ _ Hcol) as Hcn.
      split.
      * cbn [map]. apply NoDup_cons. split; [|exact Hnd].
        intros Hin. apply list_elem_of_In, in_map_iff in Hin as (c & Hc1 & Hc2).
        destruct (Hall c Hc2) as (Hnot & _). apply Hnot.
        apply elem_of_union. left. apply elem_of_singleton. congruence.
      * intros c [<-|Hc].
        -- rewrite Hcn. split; [exact Hseen|]. split; [exact Hcol|].
           exists raw. split; [left; reflexivity|]. rewrite Hname. exact En.
        -- destruct (Hall c Hc) as (Hnot & Hlook & r & Hr & Hn).
           split; [intros Hs; apply Hnot; apply elem_of_union; right; exact Hs|].
           split; [exact Hlook|]. exists r. split; [right; exact Hr | exact Hn].
  - discriminate.
Qed.

(** X13.  When a list of columns is requested and the selection succeeds,
    the selected columns are not empty, carry pairwise different names, are
    columns of the schema, and each bears the name of a requested item
    without its surrounding white space.  Without the parameter the whole
    schema is selected. *)
Theorem selected_columns_are_distinct_schema_columns
    (items : list (option text)) (schema selected : list column) :
  _tabular_selected_columns columns_missing schema = Ok schema
  /\ (_tabular_selected_columns (columns_list items) schema = Ok selected ->
      selected <> []
      /\ NoDup (map col_name selected)
      /\ forall c, In c selected ->
           In c schema
           /\ exists raw, In (Some raw) items /\ col_name c = str (strip raw)).
Proof.
  split; [reflexivity|]. unfold _tabular_selected_columns.
  destruct items as [|i items]; [discriminate|].
  destruct (select_loop _ _ (i :: items)) as [sel|e] eqn:Hsel; [|discriminate].
  cbn [bind]. destruct sel as [|c0 sel]; [discriminate|]. intros [= <-].
  destruct (select_loop_selected (schema_by_name schema) (i :: items)
              (fun n c H => proj1 (schema_by_name_entries schema n c H)) _ _ Hsel)
    as [Hnd Hall].
  split; [discriminate|]. split; [exact Hnd|].
  intros c Hc. destruct (Hall c Hc) as (_ & Hlook & Hraw).
  split; [exact (proj2 (schema_by_name_entries schema _ _ Hlook)) | exact Hraw].
Qed.

Lemma selected_columns_are_distinct_schema_columns_witness :
  let a := {| col_name := "a"; col_index := 0; col_duckdb_type := "BIGINT";
              col_inferred_type := "integer" |} in
  let b := {| col_name := "b"; col_index := 1; col_duckdb_type := "VARCHAR";
              col_inferred_type := "string" |} in
  _tabular_selected_columns (columns_list [Some (txt " b "); Some (txt "a"); Some (txt "b")])
    [a; b] = Ok [b; a]
  /\ NoDup (map col_name [b; a]).
Proof.
  intros a b. split; [reflexivity|].
  destruct (proj2 (selected_columns_are_distinct_schema_columns
                     [Some (txt " b "); Some (txt "a"); Some (txt "b")] [a; b] [b; a])
              eq_refl) as (_ & Hnd & _).
  exact Hnd.
Defined.

(** *** Sheet names *)

Lemma sheet_char_allowed c : is_sheet_forbidden (sheet_char c) = false.
Proof. destruct c as [[] [] [] [] [] [] [] []]; reflexivity. Qed.

Lemma sheet_char_idem c : sheet_char (sheet_char c) = sheet_char c.
Proof. destruct c as [[] [] [] [] [] [] [] []]; reflexivity. Qed.

Lemma sheet_char_space c : is_space (sheet_char c) = is_space c.
Proof. destruct c as [[] [] [] [] [] [] [] []]; reflexivity. Qed.

Lemma in_take_in {A} (x : A) n l : In x (take n l) -> In x l.
Proof.
  revert l. induction n as [|n IH]; intros [|y l]; cbn; try tauto.
  intros [->|H]; auto.
Qed.

Lemma normalize_unfold value :
  _tabular_normalize_sheet_name value
  = match take 31 (map sheet_char
                     (match strip value with [] => txt "Sheet1" | r => r end)) with
    | [] => txt "Sheet1"
    | t => t
    end.
Proof. reflexivity. Qed.

(** X14.  A normalized sheet name is never empty, has at most 31
    characters, and holds none of the characters that a sheet title must
    not hold (backslash, slash, question mark, asterisk, brackets, colon). *)
Theorem sheet_name_is_valid (value : text) :
  let name := _tabular_normalize_sheet_name value in
  name <> []
  /\ (length name <= 31)%nat
  /\ forall c, In c name -> is_sheet_forbidden c = false.
Proof.
  cbv zeta. rewrite normalize_unfold.
  set (raw := match strip value with [] => txt "Sheet1" | r => r end).
  assert (Hraw : exists x r, raw = x :: r).
  { subst raw. destruct (strip value) as [|x r]; [cbn|]; eauto. }
  destruct Hraw as (x & r & ->). cbn [map take].
  split; [discriminate|]. split.
  - cbn [length]. rewrite length_take. lia.
  - intros c [<-|Hc]; [apply sheet_char_allowed|].
    apply in_take_in, in_map_iff in Hc as (c0 & <- & _). apply sheet_char_allowed.
Qed.

Lemma sheet_name_is_valid_witness :
  is_sheet_forbidden "b" = false.
Proof.
  apply (proj2 (proj2 (sheet_name_is_valid (txt " a/b "))) "b"%char).
  vm_compute. auto 10.
Defined.


Lemma lstrip_map_sheet t : lstrip (map sheet_char t) = map sheet_char (lstrip t).
Proof.
  induction t as [|x t IH]; [reflexivity|]. cbn [map lstrip].
  rewrite sheet_char_space. destruct (is_space x); [exact IH | reflexivity].
Qed.

Lemma strip_map_sheet t : strip (map sheet_char t) = map sheet_char (strip t).
Proof.
  unfold strip, rstrip.
  rewrite lstrip_map_sheet, <- map_rev, lstrip_map_sheet, map_rev. reflexivity.
Qed.

Lemma normalize_short raw :
  raw <> [] -> strip raw = raw -> (length raw <= 31)%nat ->
  _tabular_normalize_sheet_name raw = map sheet_char raw
  /\ _tabular_normalize_sheet_name (map sheet_char raw) = map sheet_char raw.
Proof.
  intros Hne Hs Hlen.
  assert (Hgo : forall t, t <> [] -> strip t = t -> (length t <= 31)%nat ->
                  _tabular_normalize_sheet_name t = map sheet_char t).
  { intros t Ht Hst Hl. rewrite normalize_unfold, Hst.
    destruct t as [|x t]; [contradiction|].
    rewrite firstn_all2 by (rewrite length_map; exact Hl). reflexivity. }
  split; [apply Hgo; assumption|].
  rewrite Hgo.
  - rewrite map_map. apply map_ext. apply sheet_char_idem.
  - destruct raw; [contradiction | discriminate].
  - rewrite strip_map_sheet, Hs. reflexivity.
  - rewrite length_map. exact Hlen.
Qed.

(** X15.  For a sheet name that has at most 31 characters once its
    surrounding white space is removed, normalizing the normalized name
    changes nothing.  (The spreadsheet export normalizes the name twice.) *)
Theorem sheet_name_normalized_twice (value : text) :
  (length (strip value) <= 31)%nat ->
  _tabular_normalize_sheet_name (_tabular_normalize_sheet_name value)
  = _tabular_normalize_sheet_name value.
Proof.
  intros Hlen.
  assert (Hraw : exists raw, raw <> [] /\ strip raw = raw /\ (length raw <= 31)%nat
                              /\ _tabular_normalize_sheet_name value
                                 = _tabular_normalize_sheet_name raw).
  { destruct (strip value) as [|x r] eqn:Hs.
    - exists (txt "Sheet1"). split; [discriminate|]. split; [reflexivity|].
      split; [cbn; lia|]. rewrite !normalize_unfold, Hs. reflexivity.
    - exists (x :: r). split; [discriminate|].
      assert (Hid : strip (x :: r) = x :: r)
        by (rewrite <- Hs; apply ValidatorFacts.strip_idem).
      split; [exact Hid|]. split; [exact Hlen|].
      rewrite !normalize_unfold, Hs, Hid. reflexivity. }
  destruct Hraw as (raw & Hne & Hs & Hl & ->).
  destruct (normalize_short raw Hne Hs Hl) as [H1 H2]. rewrite H1. exact H2.
Qed.

Lemma sheet_name_normalized_twice_witness :
  _tabular_normalize_sheet_name (_tabular_normalize_sheet_name (txt " Q1/Q2: totals "))
  = _tabular_normalize_sheet_name (txt " Q1/Q2: totals ").
Proof. apply sheet_name_normalized_twice. vm_compute. lia. Defined.

(** *** Session settings *)

(** X16.  The settings are tried in order and the first one that the engine
    accepts is the last one sent: the result is true exactly when some
    statement of the list is accepted, the statements sent are a prefix of
    the list, all of them but the last were refused, and after a refusal of
    all the whole list was sent. *)
Theorem first_accepted_setting_wins (accepts : string -> bool) (statements : list string) :
  let r := _tabular_try_set_statement accepts statements in
  (fst r = true <-> exists s, In s statements /\ accepts s = true)
  /\ (exists rest, statements = (snd r ++ rest)%list
                  /\ (fst r = false -> rest = []))
  /\ (forall s, In s (removelast (snd r)) -> accepts s = false)
  /\ (fst r = true -> exists s, last (snd r) = Some s /\ accepts s = true).
Proof.
  cbv zeta. induction statements as [|st rest IH]; cbn [_tabular_try_set_statement].
  - cbn. split; [split; [discriminate | intros (s & [] & _)]|].
    split; [exists []; auto|]. split; [intros s []|discriminate].
  - destruct (accepts st) eqn:Hst; cbn [fst snd].
    + split; [split; [intros _; exists st; cbn; auto | reflexivity]|].
      split; [exists rest; split; [reflexivity | discriminate]|].
      split; [intros s []|]. intros _. exists st. auto.
    + destruct IH as (Hiff & (tl & Htl & Hall) & Hrej & Hlast).
      split; [|split; [|split]].
      * rewrite Hiff. split.
        -- intros (s & Hs & Ha). exists s. cbn; auto.
        -- intros (s & [<-|Hs] & Ha); [congruence|eauto].
      * exists tl. split; [cbn [app]; f_equal; exact Htl | exact Hall].
      * intros s Hs.
        destruct (snd (_tabular_try_set_statement accepts rest)) as [|y l] eqn:El.
        -- destruct Hs.
        -- cbn [removelast] in Hs. fold (removelast (y :: l)) in Hs.
           destruct Hs as [<-|Hs]; [exact Hst | exact (Hrej s Hs)].
      * intros Ht. destruct (Hlast Ht) as (s & Hs & Ha). exists s. split; [|exact Ha].
        rewrite last_cons, Hs. reflexivity.
Qed.

Lemma first_accepted_setting_wins_witness :
  let accepts := String.eqb "PRAGMA threads=2" in
  exists s,
    last (snd (_tabular_try_set_statement accepts ["SET threads=2"; "PRAGMA threads=2"]))
    = Some s
    /\ accepts s = true.
Proof.
  intros accepts.
  apply (proj2 (proj2 (proj2
           (first_accepted_setting_wins accepts ["SET threads=2"; "PRAGMA threads=2"])))).
  reflexivity.
Defined.


End SqlFacts.

(** ** Chunks of any size *)

Module ChunkMoreFacts.
Import Chunks.

Lemma ceil_one x size : 1 <= x -> x <= size -> (x + size - 1) / size = 1.
Proof.
  intros H1 H2. symmetry. apply (Z.div_unique_pos _ _ 1 (x - 1)); lia.
Qed.

Lemma ceil_step x size : 1 <= size -> (x + size + size - 1) / size = 1 + (x + size - 1) / size.
Proof.
  intros Hs. replace (x + size + size - 1) with (1 * size + (x + size - 1)) by lia.
  rewrite Z.div_add_l by lia. reflexivity.
Qed.

Lemma chunks_loop_closed_form size total :
  1 <= size ->
  forall fuel start idx,
    1 <= start -> start <= total + 1 ->
    (Z.to_nat (total + 1 - start) < fuel)%nat ->
    exists l, chunks_loop fuel total size start idx = Some l
      /\ Z.of_nat (length l) = (total - start + 1 + size - 1) / size
      /\ forall i c, l !! i = Some c ->
           index c = idx + Z.of_nat i
           /\ first_row c = start + Z.of_nat i * size
           /\ last_row c = Z.min (start + (Z.of_nat i + 1) * size - 1) total.
Proof.
  intros Hsize fuel.
  induction fuel as [|fuel IH]; intros start idx Hlo Hhi Hfuel; [lia|].
  cbn [chunks_loop].
  destruct (Z.leb_spec start total) as [Hle|Hgt].
  - pose proof (Z.min_spec (start + size - 1) total) as He.
    remember (Z.min (start + size - 1) total) as e eqn:Ee.
    destruct (IH (e + 1) (idx + 1)) as (l & Hl & Hlen & Hall); [lia | lia | lia |].
    rewrite Hl. eexists; split; [reflexivity|]. split.
    + cbn [length]. rewrite Nat2Z.inj_succ, Hlen.
      destruct He as [[Hlt ->]|[Hge ->]].
      * replace (total - (start + size - 1 + 1) + 1 + size - 1)
          with (total - start - size + size) by lia.
        replace (total - start + 1 + size - 1) with (total - start - size + 1 + size + size - 1)
          by lia.
        rewrite ceil_step by lia.
        replace (total - start - size + 1 + size - 1) with (total - start - size + size) by lia.
        lia.
      * replace (total - (total + 1) + 1 + size - 1) with (size - 1) by lia.
        rewrite Z.div_small by lia.
        rewrite (ceil_one (total - start + 1) size) by lia. lia.
    + intros i c Hi. destruct i as [|i]; cbn in Hi.
      * injection Hi as <-. cbn [index first_row last_row]. split; [lia|]. split; [lia|].
        rewrite Ee. f_equal. lia.
      * destruct (Hall i c Hi) as (H1 & H2 & H3).
        assert (Hnot_end : e + 1 <= total).
        { destruct (Z.le_gt_cases (e + 1) total) as [|Hbig]; [assumption|].
          assert (Hz : Z.of_nat (length l) = 0).
          { rewrite Hlen. replace (total - (e + 1) + 1 + size - 1) with (size - 1) by lia.
            apply Z.div_small. lia. }
          destruct l; [discriminate Hi | cbn [length] in Hz; lia]. }
        assert (He' : e = start + size - 1) by lia.
        split; [lia|]. split; [rewrite H2; nia|]. rewrite H3. f_equal. nia.
  - exists []. split; [reflexivity|]. split.
    + cbn [length]. replace (total - start + 1 + size - 1) with (size - 1) by lia.
      rewrite Z.div_small by lia. reflexivity.
    + intros i c Hi. destruct i; discriminate Hi.
Qed.

(** X17.  For a chunk size of one or more the chunk list is computed; it
    has ceil(N / size) entries (none for N <= 0), and entry [i] has index
    [i] and covers the rows [i * size + 1] to [min((i + 1) * size, N)]. *)
Theorem chunks_closed_form (N size : Z) :
  1 <= size ->
  exists l, _tabular_chunks N size = Some l
    /\ Z.of_nat (length l) = (Z.max N 0 + size - 1) / size
    /\ forall i c, l !! i = Some c ->
         index c = Z.of_nat i
         /\ first_row c = Z.of_nat i * size + 1
         /\ last_row c = Z.min ((Z.of_nat i + 1) * size) N.
Proof.
  intros Hsize. unfold _tabular_chunks.
  destruct (Z.leb_spec N 0) as [Hle|Hpos].
  - exists []. split; [reflexivity|]. split.
    + cbn [length]. rewrite Z.max_r by lia. rewrite Z.div_small by lia. reflexivity.
    + intros i c Hi. destruct i; discriminate Hi.
  - destruct (chunks_loop_closed_form size N Hsize (S (Z.to_nat N)) 1 0)
      as (l & Hl & Hlen & Hall); [lia | lia | lia |].
    exists l. split; [exact Hl|]. split.
    + rewrite Hlen, Z.max_l by lia. f_equal. lia.
    + intros i c Hi. destruct (Hall i c Hi) as (H1 & H2 & H3).
      split; [lia|]. split; [lia|]. rewrite H3. f_equal. lia.
Qed.

Lemma chunks_closed_form_witness :
  exists l, _tabular_chunks 250 100 = Some l /\ Z.of_nat (length l) = 3.
Proof.
  destruct (chunks_closed_form 250 100 ltac:(lia)) as (l & Hl & Hlen & _).
  exists l. split; [exact Hl|]. rewrite Hlen. reflexivity.
Defined.

Lemma chunks_loop_stuck size total :
  size <= 0 ->
  forall fuel start idx, start <= total ->
    chunks_loop fuel total size start idx = None.
Proof.
  intros Hsize fuel. induction fuel as [|fuel IH]; intros start idx Hle; [reflexivity|].
  cbn [chunks_loop]. destruct (Z.leb_spec start total) as [_|]; [|lia].
  rewrite IH by lia. reflexivity.
Qed.

(** X18.  With a chunk size of zero or less and at least one row the loop
    of [_tabular_chunks] makes no progress: however many iterations it is
    given, it does not come to an end. *)
Theorem chunks_loop_never_ends (N size : Z) (fuel : nat) (start idx : Z) :
  size <= 0 -> start <= N ->
  chunks_loop fuel N size start idx = None
  /\ (1 <= N -> _tabular_chunks N size = None).
Proof.
  intros Hsize Hstart. split; [apply chunks_loop_stuck; assumption|].
  intros HN. unfold _tabular_chunks. destruct (Z.leb_spec N 0); [lia|].
  apply chunks_loop_stuck; lia.
Qed.

Lemma chunks_loop_never_ends_witness :
  chunks_loop 1000 5 0 1 0 = None /\ _tabular_chunks 5 0 = None.
Proof.
  destruct (chunks_loop_never_ends 5 0 1000 1 0 ltac:(lia) ltac:(lia)) as [H1 H2].
  split; [exact H1 | apply H2; lia].
Defined.

End ChunkMoreFacts.

(** ** The statements of a query *)

Module ExecutorMoreFacts.
Import Supervisor Engine Executor.

Lemma supervised_state {S A : Type} conn (operation : S -> result A * S)
    timeout_ms code configured fired s :
  snd (_tabular_run_with_timeout conn operation timeout_ms code configured fired s)
  = snd (operation s).
Proof. unfold _tabular_run_with_timeout. destruct (_ <=? 0); reflexivity. Qed.

(** X20.  The statements that [tabular_query] itself executes on its
    read-only connection, once [_tabular_ensure_cache] has returned (the
    settings that [_tabular_open_connection] sends while it opens the
    connection are not counted, nor is what a cache rebuild sent before on
    a connection of its own): none unless the validator has accepted the
    query and the window size is positive and the offset is not negative;
    then the windowed statement on the accepted text and at most one count
    statement after it, the latter only for a positive offset. *)
Theorem statements_sent_to_engine (configured : Z) (conn : connection)
    (params : query_params) (fired1 fired2 : bool) :
  let log := snd (tabular_query configured conn params fired1 fired2) in
  log = []
  \/ exists query w k,
       _tabular_validate_query (p_query params) = Ok query
       /\ 0 < w /\ 0 <= k
       /\ (log = [windowed_statement query w k]
           \/ (0 < k /\ log = [windowed_statement query w k; count_statement query])).
Proof.
  cbv zeta. unfold tabular_query.
  destruct (_tabular_validate_query (p_query params)) as [query|e]; [|left; reflexivity].
  destruct (_tabular_parse_positive_int _ _ _) as [w|e] eqn:Hw; [|left; reflexivity].
  destruct (_tabular_parse_non_negative_int _ _ _) as [k|e] eqn:Hk; [|left; reflexivity].
  assert (Hwpos : 0 < w).
  { unfold _tabular_parse_positive_int in Hw. destruct (p_window_rows params) as [v|].
    - destruct (Z.leb_spec v 0); [discriminate|]. injection Hw as <-. lia.
    - injection Hw as <-. reflexivity. }
  assert (Hkpos : 0 <= k).
  { unfold _tabular_parse_non_negative_int in Hk. destruct (p_window_offset params) as [v|].
    - destruct (Z.ltb_spec v 0); [discriminate|]. injection Hk as <-. lia.
    - injection Hk as <-. lia. }
  right. exists query, w, k. split; [reflexivity|]. split; [exact Hwpos|]. split; [exact Hkpos|].
  rewrite !supervised_state.
  assert (Hlog1 : snd (_read_window_with_total conn query w k [])
                  = [windowed_statement query w k]) by reflexivity.
  destruct (outcome _) as [win|e]; [|left; cbn [snd]; exact Hlog1].
  destruct ((length (w_rows win) =? 0)%nat && (0 <? k)) eqn:Hcond.
  - right. apply andb_prop in Hcond as [_ Hk0]. apply Z.ltb_lt in Hk0.
    split; [exact Hk0|].
    rewrite Hlog1.
    assert (Hlog2 : snd (_count_rows conn query [windowed_statement query w k])
                    = [windowed_statement query w k; count_statement query]) by reflexivity.
    cbn [fst snd]. destruct (outcome _); cbn [snd]; exact Hlog2.
  - left. cbn [fst snd]. exact Hlog1.
Qed.

End ExecutorMoreFacts.

(** ** More on the export writers *)

Module ExporterMoreFacts.
Import Supervisor Engine Exporter.

Lemma write_batches_all records row_count (batches : list (list row)) :
  Forall (fun b => b <> []) batches ->
  write_batches records row_count (map Ok batches)
  = (Ok (row_count + Z.of_nat (length (concat batches))),
     records ++ map (map _tabular_csv_cell_value) (concat batches)).
Proof.
  intros Hb. revert records row_count.
  induction Hb as [|b bs Hne Hb IH]; intros records row_count; cbn [map write_batches concat].
  - rewrite Z.add_0_r, app_nil_r. reflexivity.
  - destruct b as [|r b]; [contradiction|].
    rewrite IH. rewrite !length_app, map_app, app_assoc. f_equal. f_equal. lia.
Qed.

(** X21.  When the query runs to its end, every batch but the last fetch
    being non-empty, the CSV export returns the number of rows and of
    columns and leaves at the target path the header followed by one record
    per row, in the order of the result; no other path changes.  This holds
    whether or not the timer fired meanwhile. *)
Theorem csv_export_writes_all_rows (conn : connection) (query : text) (target_path : string)
    (header : list (string * string)) (batches : list (list row))
    (configured : Z) (fired : bool) (fs : gmap string file) :
  execute conn query = Ok {| c_description := header; c_batches := map Ok batches |} ->
  Forall (fun b => b <> []) batches ->
  let run := _tabular_export_csv conn query target_path configured fired fs in
  outcome (fst run)
  = Ok (Z.of_nat (length (concat batches)), Z.of_nat (length header))
  /\ snd run
     = <[target_path := csv_file (map fst header
                                    :: map (map _tabular_csv_cell_value) (concat batches))]> fs.
Proof.
  intros Hex Hb run. subst run. unfold _tabular_export_csv.
  apply SupervisorFacts.supervised_return.
  unfold export_csv_operation. rewrite Hex. cbn [c_description c_batches].
  rewrite (write_batches_all _ _ _ Hb). cbn [fst snd bind app].
  rewrite length_map. reflexivity.
Qed.

Lemma csv_export_writes_all_rows_witness :
  let run := _tabular_export_csv Examples.one_row_connection Examples.select_all
               "out.csv" 5000 true Examples.one_old_file in
  outcome (fst run) = Ok (1, 1)
  /\ snd run !! "out.csv"%string = Some (csv_file [["a"%string]; ["1"%string]]).
Proof.
  destruct (csv_export_writes_all_rows Examples.one_row_connection Examples.select_all
              "out.csv" [("a"%string, "BIGINT"%string)] [[[v_int 1]]] 5000 true
              Examples.one_old_file eq_refl
              ltac:(repeat constructor; discriminate)) as [Hout Hfs].
  cbv zeta. rewrite Hout, Hfs. split; [reflexivity|]. apply lookup_insert_eq.
Defined.

(** X22.  The writing part of a spreadsheet export ([_tabular_export_xlsx]
    under the handlers of [tabular_export]) collects the rows in memory and
    saves the workbook last: when the save itself completes, a writing part
    that fails has written no file, so the target and every other exported
    file are as they were before it.  (The cache files, which
    [_tabular_ensure_cache] may rebuild before the writing part begins, are
    no part of this file store.) *)
Theorem failed_xlsx_export_changes_nothing (conn : connection) (query : text)
    (target_path sheet_title : string) (configured : Z) (fired : bool)
    (fs : gmap string file) (e : exn) :
  let run := tabular_export_write fmt_xlsx conn query target_path sheet_title
               save_completes configured fired fs in
  fst run = Raise e -> snd run = fs.
Proof.
  cbv zeta. unfold tabular_export_write, _tabular_export_xlsx. cbn [fst snd].
  rewrite ExecutorMoreFacts.supervised_state.
  unfold _tabular_run_with_timeout, export_xlsx_operation.
  destruct (execute conn query) as [cur|e0]; [|reflexivity].
  destruct (append_batches _ _ _) as [[n cells]|e0]; [|reflexivity].
  cbn [wb_save fst snd bind].
  destruct (_ <=? 0); cbn [fst outcome Executor.wrap_errors]; discriminate.
Qed.

Lemma failed_xlsx_export_changes_nothing_witness :
  snd (tabular_export_write fmt_xlsx Examples.interrupted_connection Examples.select_all
         "out.xlsx" "Sheet1" save_completes 5000 true Examples.one_old_book)
  = Examples.one_old_book.
Proof.
  apply (failed_xlsx_export_changes_nothing Examples.interrupted_connection
           Examples.select_all "out.xlsx" "Sheet1" 5000 true Examples.one_old_book
           (WorkerError FILE_WRITE_FAILED "query timed out after 5000ms")).
  reflexivity.
Defined.

(** X23.  The staged save touches the target path only: with a temporary
    name that is free and differs from the target, every other path holds
    afterwards what it held before, the temporary name is free again, and
    the target holds the new workbook after a success and its old content
    after a failure. *)
Theorem staged_save_touches_target_only (wb : workbook) (target_path tmp_path : string)
    (how : save_outcome) (replace_ok : bool) (fs : gmap string file) :
  fs !! tmp_path = None ->
  tmp_path <> target_path ->
  let r := _xlsx_save_workbook_atomic wb target_path tmp_path how replace_ok fs in
  (forall p, p <> target_path -> snd r !! p = fs !! p)
  /\ snd r !! tmp_path = None
  /\ snd r !! target_path
     = (if is_ok (fst r) then Some (workbook_file wb) else fs !! target_path).
Proof.
  intros Hfresh Hne r.
  pose proof (ExporterFacts.atomic_save_all_or_nothing wb target_path tmp_path how
                replace_ok fs Hfresh Hne) as H.
  cbv zeta in H. fold r in H. destruct (fst r) as [u|e]; cbn [is_ok].
  - rewrite H. split; [intros p Hp; apply lookup_insert_ne; congruence|].
    split; [rewrite lookup_insert_ne by congruence; exact Hfresh|].
    apply lookup_insert_eq.
  - destruct H as [-> _]. auto.
Qed.

Lemma staged_save_touches_target_only_witness :
  snd (_xlsx_save_workbook_atomic {| title := "New"; cells := [] |} "out.xlsx" "tmp.xlsx"
         save_completes true Examples.one_old_book) !! "out.xlsx"%string
  = Some (workbook_file {| title := "New"; cells := [] |}).
Proof.
  apply (staged_save_touches_target_only {| title := "New"; cells := [] |}
           "out.xlsx" "tmp.xlsx" save_completes true Examples.one_old_book).
  - reflexivity.
  - discriminate.
Defined.

End ExporterMoreFacts.

(** ** More on the cache store *)

Module CacheMoreFacts.
Import Store Cache Vocabulary Examples MoreExamples.

Local Open Scope string_scope.

Lemma fresh_needs_artifact d rel sg db :
  _tabular_cache_is_fresh d rel sg db = true -> db = true.
Proof.
  unfold _tabular_cache_is_fresh.
  destruct (negb (py_eq_int _ _)); [discriminate|].
  destruct (is_dict _); [|discriminate].
  destruct (negb (py_eq_str _ _)); [discriminate|].
  destruct (py_int _); [|discriminate].
  destruct (py_int _); [|discriminate].
  destruct (negb (Z.eqb _ _)); [discriminate|].
  destruct (negb (Z.eqb _ _)); [discriminate|].
  destruct (digest_differs _ _); [discriminate|].
  destruct db; [reflexivity | discriminate].
Qed.

(** What a call of [_tabular_ensure_cache] that returns leaves behind. *)
Lemma ensure_cache_returns src w c w1 :
  _tabular_ensure_cache src w = (Ok c, w1) ->
  cache_source c = src
  /\ source w1 = source w
  /\ _tabular_load_metadata w1 = Some (metadata c)
  /\ _tabular_cache_is_fresh (metadata c) (rel_path src) (signature_of (source w1))
       (db_file w1) = true.
Proof.
  unfold _tabular_ensure_cache, _tabular_source_signature.
  assert (Hbuild :
    (letr m := fst (_tabular_rebuild_cache src (signature_of (source w)) w)
     in Ok {| metadata := m; cache_source := src |},
     snd (_tabular_rebuild_cache src (signature_of (source w)) w)) = (Ok c, w1) ->
    cache_source c = src /\ source w1 = source w
    /\ _tabular_load_metadata w1 = Some (metadata c)
    /\ _tabular_cache_is_fresh (metadata c) (rel_path src) (signature_of (source w1))
         (db_file w1) = true).
  { unfold _tabular_rebuild_cache.
    cbn [source _tabular_remove_cache_files count_rebuild].
    destruct (ingest_of (source w)) as [e|e|i]; cbn [fst snd bind].
    - discriminate.
    - destruct e; discriminate.
    - intros [= <- <-].
      cbn [cache_source metadata source _tabular_write_metadata open_and_load db_file].
      unfold _tabular_load_metadata. cbn [meta_file].
      rewrite CacheFacts.fresh_after_build. auto. }
  destruct (_tabular_load_metadata w) as [d|] eqn:Hload; [|exact Hbuild].
  destruct (_tabular_cache_is_fresh d _ _ _) eqn:Hfresh; [|exact Hbuild].
  intros [= <- <-]. cbn [cache_source metadata]. auto.
Qed.

(** X24.  When [ensure_cache] returns, the metadata it returns is the record
    on disk, the freshness check accepts that record for the source as it
    is, the cache artifact exists, and the source file is as it was. *)
Theorem returned_entry_is_fresh (src : source_ref) (w w1 : world) (c : cache) :
  _tabular_ensure_cache src w = (Ok c, w1) ->
  _tabular_load_metadata w1 = Some (metadata c)
  /\ _tabular_cache_is_fresh (metadata c) (rel_path src) (signature_of (source w1))
       (db_file w1) = true
  /\ db_file w1 = true
  /\ source w1 = source w.
Proof.
  intros H. destruct (ensure_cache_returns _ _ _ _ H) as (_ & Hs & Hl & Hf).
  pose proof (fresh_needs_artifact _ _ _ _ Hf). auto.
Qed.

Lemma returned_entry_is_fresh_witness :
  exists c w1,
    _tabular_ensure_cache sample_ref cold_world = (Ok c, w1)
    /\ _tabular_load_metadata w1 = Some (metadata c)
    /\ db_file w1 = true.
Proof.
  eexists _, _. split; [reflexivity|].
  pose proof (returned_entry_is_fresh sample_ref cold_world _ _ eq_refl)
    as (Hl & _ & Hdb & _).
  split; [exact Hl | exact Hdb].
Defined.

(** A record that the freshness check accepts tells the path and the
    signature it was checked against. *)
Lemma fresh_reads d rel sg db :
  _tabular_cache_is_fresh d rel sg db = true ->
  exists s,
    is_dict (get d "source") = Some s
    /\ get s "path" = PStr rel
    /\ py_int (get_or s "size_bytes" (PInt (-1))) = Some (size_bytes sg)
    /\ py_int (get_or s "mtime_ns" (PInt (-1))) = Some (mtime_ns sg)
    /\ str_or_empty (get s "sha256") = Some (hexdigest (sha256 sg)).
Proof.
  unfold _tabular_cache_is_fresh.
  destruct (negb (py_eq_int _ _)); [discriminate|].
  destruct (is_dict _) as [s|]; [|discriminate].
  destruct (py_eq_str (get s "path") rel) eqn:Hp; [|discriminate]. cbn [negb].
  destruct (py_int (get_or s "size_bytes" _)) as [sz|] eqn:Hz; [|discriminate].
  destruct (py_int (get_or s "mtime_ns" _)) as [mt|] eqn:Hm; [|discriminate].
  destruct (Z.eqb_spec sz (size_bytes sg)) as [->|]; [|discriminate]. cbn [negb].
  destruct (Z.eqb_spec mt (mtime_ns sg)) as [->|]; [|discriminate]. cbn [negb].
  unfold digest_differs.
  destruct (str_or_empty (get s "sha256")) as [h|] eqn:Hh; [|discriminate].
  destruct (String.eqb_spec h (hexdigest (sha256 sg))) as [->|]; [|discriminate].
  intros _. exists s. repeat split; try assumption.
  destruct (get s "path"); try discriminate Hp. cbn in Hp.
  apply String.eqb_eq in Hp. congruence.
Qed.

Lemma fresh_for_one_source d rel rel' sg sg' db db' :
  _tabular_cache_is_fresh d rel sg db = true ->
  _tabular_cache_is_fresh d rel' sg' db' = true ->
  rel = rel' /\ sg = sg'.
Proof.
  intros H H'.
  destruct (fresh_reads _ _ _ _ H) as (s & Hs & Hp & Hz & Hm & Hh).
  destruct (fresh_reads _ _ _ _ H') as (s' & Hs' & Hp' & Hz' & Hm' & Hh').
  assert (s' = s) as -> by congruence.
  split; [congruence|].
  destruct sg as [z m h], sg' as [z' m' h'].
  cbn [size_bytes mtime_ns sha256] in *.
  assert (z = z') as -> by congruence.
  assert (m = m') as -> by congruence.
  assert (h = h') as -> by (apply CacheFacts.hexdigest_injective; congruence).
  reflexivity.
Qed.

(** An entry that was returned is stale for another version of the file
    and for another relative path. *)
Lemma returned_entry_serves_one_source src w c w1 src' file' :
  Cache._tabular_ensure_cache src w = (Ok c, w1) ->
  signature_of file' <> signature_of (source w) \/ rel_path src' <> rel_path src ->
  rebuilt src' (source_replaced file' w1).
Proof.
  intros H Hdiff. destruct (ensure_cache_returns _ _ _ _ H) as (_ & Hsrc & Hl & Hf).
  pose proof (CacheFacts.ensure_cache_branch src' (source_replaced file' w1)) as Hb.
  unfold _tabular_load_metadata in Hb, Hl. cbn [source_replaced meta_file] in Hb.
  destruct (meta_file w1) as [[|[]]|]; try discriminate Hl.
  injection Hl as Hl. subst entries.
  change (signature_of (source (source_replaced file' w1))) with (signature_of file') in Hb.
  change (db_file (source_replaced file' w1)) with (db_file w1) in Hb.
  destruct (_tabular_cache_is_fresh (metadata c) (rel_path src') (signature_of file')
              (db_file w1)) eqn:Hf'; [|exact Hb].
  destruct (fresh_for_one_source _ _ _ _ _ _ _ Hf Hf') as [Hrel Hsig].
  rewrite Hsrc in Hsig.
  destruct Hdiff as [Hd|Hd]; exfalso; apply Hd; congruence.
Qed.

(** Without its metadata record or without its cache artifact an entry is
    rebuilt. *)
Lemma rebuilt_without_files src w :
  meta_file w = None \/ db_file w = false -> rebuilt src w.
Proof.
  intros Hgone. pose proof (CacheFacts.ensure_cache_branch src w) as Hb.
  destruct (_tabular_load_metadata w) as [d|] eqn:Hload; [|exact Hb].
  destruct (_tabular_cache_is_fresh d _ _ _) eqn:Hfresh; [|exact Hb].
  exfalso. destruct Hgone as [Hm|Hdb].
  - unfold _tabular_load_metadata in Hload. rewrite Hm in Hload. discriminate Hload.
  - rewrite (fresh_needs_artifact _ _ _ _ Hfresh) in Hdb. discriminate Hdb.
Qed.

(** When every removal succeeds the files are removed as
    [Cache._tabular_remove_cache_files] removes them. *)
Lemma all_removed w :
  Store._tabular_remove_cache_files
    {| db_removed := true; wal_removed := true; meta_removed := true |} w
  = Cache._tabular_remove_cache_files w.
Proof.
  unfold Store._tabular_remove_cache_files, Cache._tabular_remove_cache_files.
  cbn [db_removed wal_removed meta_removed negb]. rewrite !andb_false_r. reflexivity.
Qed.

(** What a call on the store does to the entry of its source and to the
    other entries. *)
Lemma ensure_at_paths (sha256_hex : text -> string) (tabular_dir : string -> result string)
    (src : source_ref) (file : source_file) (st : store) (paths : string * string) :
  _tabular_cache_paths sha256_hex tabular_dir (workbench_id src) (txt (rel_path src))
  = Ok paths ->
  Store._tabular_ensure_cache sha256_hex tabular_dir src file st
  = (fst (Cache._tabular_ensure_cache src (entry_at st paths file)),
     <[paths := snd (Cache._tabular_ensure_cache src (entry_at st paths file))]> st).
Proof. unfold Store._tabular_ensure_cache. intros ->. reflexivity. Qed.

Lemma rebuilds_at_insert (st : store) paths w :
  rebuilds_at (<[paths := w]> st) paths = rebuilds w.
Proof. unfold rebuilds_at. rewrite lookup_insert_eq. reflexivity. Qed.

Lemma same_key_same_paths (sha256_hex : text -> string)
    (tabular_dir : string -> result string) src src' :
  workbench_id src' = workbench_id src ->
  lower (strip (txt (rel_path src'))) = lower (strip (txt (rel_path src))) ->
  _tabular_cache_paths sha256_hex tabular_dir (workbench_id src') (txt (rel_path src'))
  = _tabular_cache_paths sha256_hex tabular_dir (workbench_id src) (txt (rel_path src)).
Proof. unfold _tabular_cache_paths, _tabular_cache_key. intros -> ->. reflexivity. Qed.

(** X26.  After [ensure_cache] has returned for a source, its entry serves
    that version of the file under that relative path only.  The next call
    rebuilds the entry when the file has another size, modification time or
    digest, and when it names, in the same workbench, a source under another
    relative path with the same cache key (the same text once stripped and
    lower-cased).  A call for a source with other cache paths leaves the
    entry as it is. *)
Theorem changed_source_is_rebuilt (sha256_hex : text -> string)
    (tabular_dir : string -> result string) (src : source_ref) (file : source_file)
    (st st1 : store) (c : cache) (paths : string * string) :
  let ensure := Store._tabular_ensure_cache sha256_hex tabular_dir in
  let paths_of := fun s : source_ref =>
    _tabular_cache_paths sha256_hex tabular_dir (workbench_id s) (txt (rel_path s)) in
  paths_of src = Ok paths ->
  ensure src file st = (Ok c, st1) ->
  (forall file',
     signature_of file' <> signature_of file ->
     rebuilds_at (snd (ensure src file' st1)) paths = S (rebuilds_at st1 paths))
  /\ (forall src' file',
        workbench_id src' = workbench_id src ->
        lower (strip (txt (rel_path src'))) = lower (strip (txt (rel_path src))) ->
        rel_path src' <> rel_path src ->
        rebuilds_at (snd (ensure src' file' st1)) paths = S (rebuilds_at st1 paths))
  /\ (forall src' file' paths',
        paths_of src' = Ok paths' -> paths' <> paths ->
        snd (ensure src' file' st1) !! paths = st1 !! paths).
Proof.
  intros ensure paths_of Hpaths Hfirst.
  unfold ensure in Hfirst. rewrite (ensure_at_paths _ _ _ _ _ _ Hpaths) in Hfirst.
  set (w0 := entry_at st paths file) in Hfirst.
  destruct (Cache._tabular_ensure_cache src w0) as [r1 w1] eqn:Hcall.
  cbn [fst snd] in Hfirst. injection Hfirst as -> <-.
  assert (Hsource : source w0 = file).
  { subst w0. unfold entry_at. destruct (st !! paths); reflexivity. }
  assert (Hnext : forall src' file',
            paths_of src' = Ok paths ->
            signature_of file' <> signature_of file \/ rel_path src' <> rel_path src ->
            rebuilds_at (snd (ensure src' file' (<[paths := w1]> st))) paths
            = S (rebuilds_at (<[paths := w1]> st) paths)).
  { intros src' file' Hsame Hdiff. unfold ensure.
    rewrite (ensure_at_paths _ _ _ _ _ _ Hsame). cbn [snd].
    rewrite !rebuilds_at_insert. unfold entry_at. rewrite lookup_insert_eq.
    rewrite <- Hsource in Hdiff.
    exact (returned_entry_serves_one_source _ _ _ _ _ _ Hcall Hdiff). }
  split; [|split].
  - intros file' Hsig. apply Hnext; [exact Hpaths | left; exact Hsig].
  - intros src' file' Hwb Hkey Hrel. apply Hnext; [|right; exact Hrel].
    unfold paths_of. rewrite <- Hpaths. exact (same_key_same_paths _ _ _ _ Hwb Hkey).
  - intros src' file' paths' Hother Hne. unfold ensure.
    rewrite (ensure_at_paths _ _ _ _ _ _ Hother). cbn [snd].
    apply lookup_insert_ne. exact Hne.
Qed.

Lemma changed_source_is_rebuilt_witness :
  exists c st1,
    Store._tabular_ensure_cache sample_digest sample_dir sample_ref sample_source ∅
    = (Ok c, st1)
    /\ rebuilds_at (snd (Store._tabular_ensure_cache sample_digest sample_dir
                           sample_ref edited_source st1)) sample_paths
       = S (rebuilds_at st1 sample_paths)
    /\ rebuilds_at (snd (Store._tabular_ensure_cache sample_digest sample_dir
                           shouting_ref sample_source st1)) sample_paths
       = S (rebuilds_at st1 sample_paths).
Proof.
  eexists _, _. split; [reflexivity|].
  pose proof (changed_source_is_rebuilt sample_digest sample_dir sample_ref sample_source
                ∅ _ _ sample_paths eq_refl eq_refl) as (Hfile & Hpath & _).
  split.
  - apply Hfile. discriminate.
  - apply Hpath; [reflexivity | reflexivity | discriminate].
Defined.

(** X27.  Invalidating a path whose stripped text ends in ".csv" in any
    letter case touches the entry at the cache paths of that path and no
    other entry.  When the removal of the metadata record or of the cache
    artifact succeeds, the next [ensure_cache] for a source with these cache
    paths rebuilds the entry.  For any other path, and when the cache paths
    cannot be resolved, the store is left as it is. *)
Theorem invalidation_forces_rebuild (sha256_hex : text -> string)
    (tabular_dir : string -> result string) (r : removal) (workbench : string)
    (rel_path : text) (st : store) :
  let st1 := _tabular_invalidate_cache_for_rel_path sha256_hex tabular_dir r workbench
               rel_path st in
  (forall paths,
     Helpers.ends_with (txt ".csv") (lower (strip rel_path)) = true ->
     _tabular_cache_paths sha256_hex tabular_dir workbench (strip rel_path) = Ok paths ->
     (forall paths', paths' <> paths -> st1 !! paths' = st !! paths')
     /\ (meta_removed r = true \/ db_removed r = true ->
         forall src file,
           _tabular_cache_paths sha256_hex tabular_dir (workbench_id src)
             (txt (Cache.rel_path src)) = Ok paths ->
           rebuilds_at (snd (Store._tabular_ensure_cache sha256_hex tabular_dir src file st1))
             paths
           = S (rebuilds_at st1 paths)))
  /\ (Helpers.ends_with (txt ".csv") (lower (strip rel_path)) = false -> st1 = st)
  /\ (forall e,
        _tabular_cache_paths sha256_hex tabular_dir workbench (strip rel_path) = Raise e ->
        st1 = st).
Proof.
  cbv zeta. unfold _tabular_invalidate_cache_for_rel_path. split; [|split].
  - intros paths Hcsv Hpaths. rewrite Hcsv, Hpaths.
    destruct (strip rel_path) as [|x t] eqn:Hs; [discriminate Hcsv|].
    replace (text_eqb (x :: t) []) with false by (destruct x; reflexivity).
    cbn [orb negb].
    destruct (st !! paths) as [w|] eqn:Hentry.
    + split; [intros paths' Hne; apply lookup_insert_ne; congruence|].
      intros Hremoved src file Hsame.
      rewrite (ensure_at_paths _ _ _ _ _ _ Hsame). cbn [snd].
      rewrite !rebuilds_at_insert. unfold entry_at. rewrite lookup_insert_eq.
      apply (rebuilt_without_files src
               (source_replaced file (Store._tabular_remove_cache_files r w))).
      cbn [source_replaced Store._tabular_remove_cache_files meta_file db_file].
      destruct Hremoved as [-> | ->]; [left; reflexivity|].
      right. cbn [negb]. apply andb_false_r.
    + split; [reflexivity|].
      intros _ src file Hsame.
      rewrite (ensure_at_paths _ _ _ _ _ _ Hsame). cbn [snd].
      rewrite rebuilds_at_insert. unfold entry_at, rebuilds_at. rewrite Hentry.
      apply (rebuilt_without_files src (no_files file)). left. reflexivity.
  - intros Hn. rewrite Hn. cbn [negb]. rewrite orb_true_r. reflexivity.
  - intros e He. rewrite He. destruct (_ || _); reflexivity.
Qed.

Lemma invalidation_forces_rebuild_witness :
  let r := {| db_removed := true; wal_removed := true; meta_removed := false |} in
  let st := {[ sample_paths := warm_world ]} : store in
  let st1 := _tabular_invalidate_cache_for_rel_path sample_digest sample_dir r "wb"
               (txt " A.CSV ") st in
  rebuilds_at (snd (Store._tabular_ensure_cache sample_digest sample_dir sample_ref
                      sample_source st1)) sample_paths
  = S (rebuilds_at st1 sample_paths).
Proof.
  intros r st st1.
  destruct (invalidation_forces_rebuild sample_digest sample_dir r "wb" (txt " A.CSV ") st)
    as (Hcsv & _ & _).
  destruct (Hcsv sample_paths eq_refl eq_refl) as (_ & Hnext).
  apply Hnext; [right; reflexivity | reflexivity].
Defined.

End CacheMoreFacts.
(** ** Settings, environment lines and sandbox names *)

Module HelperFacts.
Import Validator Helpers TextFacts ScanFacts.

(** X28.  A setting read with [parse_int_clamped] lies between its bounds
    whatever the environment holds (nothing, a number, or any other text),
    provided the default does; so the configured query timeout is always
    between 100 and 600000 milliseconds. *)
Theorem clamped_setting_in_range (value : option text) (default minimum maximum : Z) :
  (minimum <= default <= maximum ->
   minimum <= parse_int_clamped value default minimum maximum <= maximum)
  /\ 100 <= configured_query_timeout value <= 600000.
Proof.
  assert (Hrange : forall d lo hi, lo <= d <= hi ->
                     lo <= parse_int_clamped value d lo hi <= hi).
  { intros d lo hi Hd. unfold parse_int_clamped.
    destruct (int_of_text _) as [parsed|]; [|exact Hd].
    destruct (Z.ltb_spec parsed lo); [lia|].
    destruct (Z.ltb_spec hi parsed); lia. }
  split; [apply Hrange|].
  apply Hrange. unfold TABULAR_QUERY_TIMEOUT_MS. lia.
Qed.

Lemma clamped_setting_in_range_witness :
  1 <= parse_int_clamped (Some (txt " 700 ")) 2 1 64 <= 64.
Proof.
  apply (proj1 (clamped_setting_in_range (Some (txt " 700 ")) 2 1 64)). lia.
Defined.

Lemma split_first_at c k rest :
  has_char c k = false -> split_first c (k ++ c :: rest) = Some (k, rest).
Proof.
  unfold has_char. induction k as [|x k IH]; cbn [existsb app split_first].
  - intros _. unfold chr_eqb. rewrite Ascii.eqb_refl. reflexivity.
  - intros H. apply orb_false_iff in H as [Hx Hk].
    replace (chr_eqb x c) with false
      by (unfold chr_eqb in *; rewrite Ascii.eqb_sym; symmetry; exact Hx).
    rewrite (IH Hk). reflexivity.
Qed.

Lemma rstrip_snoc l c : is_space c = false -> rstrip (l ++ [c]) = l ++ [c].
Proof.
  intros Hc. unfold rstrip. rewrite rev_app_distr. cbn [rev app].
  rewrite lstrip_fixed by exact Hc. cbn [rev]. rewrite rev_involutive. reflexivity.
Qed.

(** X29.  A line [key=value] whose value stands between two double quotes or
    two single quotes gives the key and the value as written between the
    quotes, white space, equals signs and quotes included. *)
Theorem quoted_env_value_is_kept (q : ascii) (key value : text) :
  q = DQ \/ q = SQ ->
  strip key = key -> key <> [] -> has_char "=" key = false ->
  _split_env_line (key ++ "="%char :: q :: value ++ [q]) = (Some key, Some value).
Proof.
  intros Hq Hstrip Hkey Heq. unfold _split_env_line.
  rewrite (split_first_at _ _ _ Heq). rewrite Hstrip.
  destruct key as [|k0 key']; [contradiction|].
  assert (Hsp : is_space q = false) by (destruct Hq as [->| ->]; reflexivity).
  assert (Hv : strip (q :: value ++ [q]) = q :: value ++ [q]).
  { unfold strip. rewrite lstrip_fixed by exact Hsp.
    change (q :: value ++ [q]) with ((q :: value) ++ [q]).
    apply rstrip_snoc. exact Hsp. }
  rewrite Hv. unfold unquote_env.
  assert (Hlen : (2 <=? length (q :: value ++ [q]))%nat = true).
  { apply Nat.leb_le. cbn [length]. rewrite length_app. cbn [length]. lia. }
  rewrite Hlen.
  assert (Hquoted : quoted_with q (q :: value ++ [q]) = true).
  { unfold quoted_with, endswith, chr_eqb. rewrite Ascii.eqb_refl.
    change (q :: value ++ [q]) with ((q :: value) ++ [q]).
    rewrite last_snoc. rewrite Ascii.eqb_refl. reflexivity. }
  assert (Hany : quoted_with DQ (q :: value ++ [q]) || quoted_with SQ (q :: value ++ [q])
                 = true).
  { destruct Hq as [->| ->]; rewrite Hquoted; [reflexivity | apply orb_true_r]. }
  rewrite Hany. cbn [andb tail]. rewrite removelast_last. reflexivity.
Qed.

Lemma quoted_env_value_is_kept_witness :
  _split_env_line (txt "KEY=" ++ DQ :: txt " a=b " ++ [DQ])%list
  = (Some (txt "KEY"), Some (txt " a=b ")).
Proof.
  apply (quoted_env_value_is_kept DQ (txt "KEY") (txt " a=b ")).
  - left. reflexivity.
  - reflexivity.
  - discriminate.
  - reflexivity.
Defined.

Lemma has_char_in c t : has_char c t = false -> ~ In c t.
Proof.
  unfold has_char. intros H Hin.
  assert (existsb (chr_eqb c) t = true) as Ht; [|congruence].
  apply existsb_exists. exists c. split; [exact Hin|].
  unfold chr_eqb. apply Ascii.eqb_refl.
Qed.

Lemma starts_with_prefix p b : starts_with p (p ++ b) = true.
Proof. apply starts_with_app. exists b. reflexivity. Qed.

Lemma contains_run p a b : contains p (a ++ p ++ b) = true.
Proof.
  induction a as [|x a IH]; cbn [app].
  - destruct (p ++ b) eqn:E; cbn [contains]; rewrite <- E, starts_with_prefix; reflexivity.
  - cbn [contains]. rewrite IH. apply orb_true_r.
Qed.

(** The checks that [validate_root] and [validate_rel_path] share. *)
Lemma one_name_checks t :
  t <> [] ->
  starts_with (txt "/") t = false ->
  starts_with (txt "..") t || contains (txt "..") t = false ->
  has_char "/" t || has_char "\" t = false ->
  ~ In "/"%char t /\ ~ In "\"%char t /\ (forall a b, t <> a ++ txt ".." ++ b)%list.
Proof.
  intros _ _ Hdots Hsep.
  apply orb_false_iff in Hdots as [_ Hdots]. apply orb_false_iff in Hsep as [Hs Hb].
  split; [apply has_char_in; exact Hs|]. split; [apply has_char_in; exact Hb|].
  intros a b ->. rewrite contains_run in Hdots. discriminate.
Qed.

(** X30.  A root that [validate_root] accepts and a path that
    [validate_rel_path] accepts are single names: not empty, with no slash,
    no backslash and no two dots in a row. *)
Theorem accepted_names_are_single_components (t : text) :
  validate_root t = Ok tt \/ validate_rel_path t = Ok tt ->
  t <> []
  /\ ~ In "/"%char t /\ ~ In "\"%char t
  /\ (forall a b, t <> a ++ txt ".." ++ b)%list.
Proof.
  assert (Hne : forall u, text_eqb u [] = false -> u <> [])
    by (intros u H ->; discriminate H).
  unfold validate_root, validate_rel_path, sandbox_violation.
  intros [H|H];
    destruct (text_eqb t []) eqn:He; try discriminate H;
    destruct (starts_with (txt "/") t) eqn:Habs; try discriminate H;
    destruct (starts_with (txt "..") t || contains (txt "..") t) eqn:Hdots;
      try discriminate H;
    destruct (has_char "/" t || has_char "\" t) eqn:Hsep; try discriminate H;
    (split; [exact (Hne t He) | exact (one_name_checks t (Hne t He) Habs Hdots Hsep)]).
Qed.

Lemma accepted_names_are_single_components_witness :
  txt "sales.csv" <> []
  /\ ~ In "/"%char (txt "sales.csv") /\ ~ In "\"%char (txt "sales.csv")
  /\ (forall a b, txt "sales.csv" <> a ++ txt ".." ++ b)%list.
Proof.
  apply (accepted_names_are_single_components (txt "sales.csv")).
  right. reflexivity.
Defined.

End HelperFacts.

